(** * Verification of the Alzheimer-MRI experiment notebook

    A shallow embedding of [solution/solution.ipynb]: the label
    binarisation, the image transform, the two train/test splits, the
    dataset adapter, the adversarial-validation arrays, the score filter and
    the accuracy metric, with the properties the specification states about
    them.

    Arrays are lists; integer labels are [Z]; exact rationals [Q] stand for
    the real numbers that the program's floats approximate. *)

From Stdlib Require Import ZArith QArith Qround Lia ZifyNat.
From stdpp Require Import base list sorting gmap.

Local Open Scope Z_scope.

(** ** Label binarisation (notebook cell "binary classification") *)

Module Labels.

(** One element of [np.clip]: values below [a_min] become [a_min], values
    above [a_max] become [a_max], the others are kept. *)
Definition clip (x a_min a_max : Z) : Z :=
  if x <? a_min then a_min
  else if a_max <? x then a_max
  else x.

(** [np.clip(a, a_min, a_max)] on a one-dimensional integer array. *)
Definition np_clip (a : list Z) (a_min a_max : Z) : list Z :=
  (λ x, clip x a_min a_max) <$> a.

(** [labels = np.clip(labels, 0, 1)], applied in the notebook to
    [synth_labels], [real_labels] and [real_final_labels]. *)
Definition binarize (labels : list Z) : list Z := np_clip labels 0 1.

Lemma clip_min_max (x : Z) : clip x 0 1 = Z.min (Z.max x 0) 1.
Proof. unfold clip. repeat case_match; lia. Qed.

Lemma clip_binary (x : Z) : clip x 0 1 = 0 ∨ clip x 0 1 = 1.
Proof. unfold clip. repeat case_match; lia. Qed.

Lemma binarize_lookup (labels : list Z) (i : nat) :
  binarize labels !! i = (λ x, clip x 0 1) <$> labels !! i.
Proof. unfold binarize, np_clip. apply list_lookup_fmap. Qed.

(** C1: binarisation maps every label [l] to [min (max l 0) 1]; a label
    that is at least 1 becomes 1, label 0 stays 0, and every binarised label
    is 0 or 1.  The array keeps its length and each position is binarised
    on its own. *)
Theorem binarize_spec (labels : list Z) :
  length (binarize labels) = length labels ∧
  binarize labels = (λ l, Z.min (Z.max l 0) 1) <$> labels ∧
  ∀ (i : nat) (l : Z), labels !! i = Some l →
    ∃ b, binarize labels !! i = Some b ∧
         b = Z.min (Z.max l 0) 1 ∧
         (1 ≤ l → b = 1) ∧ (l = 0 → b = 0) ∧ (b = 0 ∨ b = 1).
Proof.
  split; [apply length_fmap|]. split.
  - unfold binarize, np_clip. apply list_fmap_ext.
    intros _ x _. apply clip_min_max.
  - intros i l Hl. exists (clip l 0 1).
    rewrite binarize_lookup, Hl. split; [done|].
    split; [apply clip_min_max|].
    split; [|split; [|apply clip_binary]].
    + intros Hge. unfold clip. repeat case_match; lia.
    + intros ->. reflexivity.
Qed.

(** The four severity classes of the data set, binarised. *)
Lemma binarize_spec_witness :
  binarize [0; 1; 2; 3] = [0; 1; 1; 1] ∧
  ∃ b, binarize [0; 1; 2; 3] !! 3%nat = Some b ∧
       b = Z.min (Z.max 3 0) 1 ∧
       (1 ≤ 3 → b = 1) ∧ (3 = 0 → b = 0) ∧ (b = 0 ∨ b = 1).
Proof.
  split; [reflexivity|].
  exact (proj2 (proj2 (binarize_spec [0; 1; 2; 3])) 3%nat 3 eq_refl).
Defined.

End Labels.

(** ** The image transform (notebook cell "image transformation") *)

Module Transform.

Section Pipeline.
(** [pixel] is the element type of the loaded image arrays and [value] the
    element type of the tensors handed to the models; [to_float] is the
    element conversion of [ToTensor] (for [uint8] input, the division by
    255 into a float). *)
Context {pixel value : Type}.
Variable to_float : pixel → value.

(** An array of shape (H, W) is a list of H rows of W elements; an array
    of shape (H, W, C) is a list of H rows of W pixels of C channels. *)
Definition has_shape2 {A} (H W : nat) (a : list (list A)) : Prop :=
  length a = H ∧ Forall (λ row, length row = W) a.

Definition has_shape3 {A} (D0 D1 D2 : nat) (a : list (list (list A))) : Prop :=
  length a = D0 ∧ Forall (has_shape2 D1 D2) a.

(** Modelled from the spec: [Unsqueeze(axis=-1)] of the repository's
    [dataset.py], which is not among the sources: it inserts a new
    trailing axis of size 1. *)
Definition Unsqueeze (img : list (list pixel)) : list (list (list pixel)) :=
  (λ row : list pixel, (λ p, [p]) <$> row) <$> img.

(** Modelled from the spec: [Repeat(n_channel, axis=-1)] of the
    repository's [dataset.py], which is not among the sources: it
    replicates the array along its last axis, every element [n_channel]
    times in a row as [np.repeat] does. *)
Definition Repeat (n_channel : nat) (img : list (list (list pixel)))
  : list (list (list pixel)) :=
  (λ row : list (list pixel),
     (λ px : list pixel, px ≫= replicate n_channel) <$> row) <$> img.

(** Exchange of the two outer axes of a non-empty array: from rows of
    columns to columns of rows. *)
Fixpoint transpose {A} (rows : list (list A)) : list (list A) :=
  match rows with
  | [] => []
  | r :: rs =>
      match rs with
      | [] => (λ x, [x]) <$> r
      | _ :: _ => zip_with cons r (transpose rs)
      end
  end.

(** [pic.transpose((2, 0, 1))]: from (H, W, C) to (C, H, W). *)
Definition transpose_2_0_1 {A} (pic : list (list (list A)))
  : list (list (list A)) :=
  transpose (transpose <$> pic).

(** torchvision's [ToTensor] on a three-dimensional array: channel-first
    layout, then the element conversion. *)
Definition ToTensor (pic : list (list (list pixel)))
  : list (list (list value)) :=
  (λ channel : list (list pixel),
     (λ row : list pixel, to_float <$> row) <$> channel)
  <$> transpose_2_0_1 pic.

(** [transforms.Compose([Unsqueeze(axis=-1), Repeat(n_channel=3, axis=-1),
    transforms.ToTensor()])]: the stages run in the order of the list. *)
Definition transform (img : list (list pixel)) : list (list (list value)) :=
  ToTensor (Repeat 3 (Unsqueeze img)).

Lemma zip_with_cons_lengths {A} (n : nat) (r : list A) (cs : list (list A)) :
  Forall (λ c, length c = n) cs →
  Forall (λ c, length c = S n) (zip_with cons r cs).
Proof.
  revert cs. induction r as [|x r IHr]; intros [|c cs] Hcs; simpl;
    try constructor.
  - simpl. by apply Forall_cons in Hcs as [-> _].
  - apply IHr. by apply Forall_cons in Hcs as [_ ?].
Qed.

Lemma transpose_shape {A} (H W : nat) (rows : list (list A)) :
  (0 < H)%nat → has_shape2 H W rows → has_shape2 W H (transpose rows).
Proof.
  revert H. induction rows as [|r rs IH]; intros H HH [Hlen Hrows].
  - simpl in Hlen. lia.
  - apply Forall_cons in Hrows as [Hr Hrs].
    destruct rs as [|r' rs].
    + simpl in *. subst H. split; [by rewrite length_fmap|].
      apply Forall_fmap, Forall_true. done.
    + destruct (IH (length (r' :: rs))) as [IHlen IHrows];
        [simpl; lia|by split|].
      change (transpose (r :: r' :: rs))
        with (zip_with cons r (transpose (r' :: rs))).
      split.
      * rewrite length_zip_with. lia.
      * subst H. by apply zip_with_cons_lengths.
Qed.

Lemma Unsqueeze_shape (H W : nat) (img : list (list pixel)) :
  has_shape2 H W img → has_shape3 H W 1 (Unsqueeze img).
Proof.
  intros [Hlen Hrows]. unfold Unsqueeze. split; [by rewrite length_fmap|].
  apply Forall_fmap. eapply Forall_impl; [exact Hrows|].
  intros row Hrow. split; [by rewrite length_fmap|].
  apply Forall_fmap, Forall_true. done.
Qed.

Lemma length_bind_replicate {A} (n : nat) (px : list A) :
  length (px ≫= replicate n) = (length px * n)%nat.
Proof.
  induction px as [|x px IH]; [done|].
  rewrite bind_cons, length_app, length_replicate, IH. simpl. lia.
Qed.

Lemma Repeat_shape (n H W C : nat) (img : list (list (list pixel))) :
  has_shape3 H W C img → has_shape3 H W (C * n) (Repeat n img).
Proof.
  intros [Hlen Hrows]. unfold Repeat. split; [by rewrite length_fmap|].
  apply Forall_fmap. eapply Forall_impl; [exact Hrows|].
  intros row [Hrow Hpx]. split; [by rewrite length_fmap|].
  apply Forall_fmap. eapply Forall_impl; [exact Hpx|].
  intros px Hlpx. simpl. by rewrite length_bind_replicate, Hlpx.
Qed.

Lemma transpose_Forall {A} (P : A → Prop) (rows : list (list A)) :
  Forall (Forall P) rows → Forall (Forall P) (transpose rows).
Proof.
  induction rows as [|r rs IH]; intros Hrows; [done|].
  apply Forall_cons in Hrows as [Hr Hrs].
  destruct rs as [|r' rs].
  - simpl. apply Forall_fmap. eapply Forall_impl; [exact Hr|].
    intros x Hx. simpl. by constructor.
  - specialize (IH Hrs).
    change (transpose (r :: r' :: rs))
      with (zip_with cons r (transpose (r' :: rs))).
    revert IH. generalize (transpose (r' :: rs)). clear Hrs.
    induction Hr as [|x r Hx Hr IHr]; intros [|c cs] Hcs; simpl;
      try constructor.
    + constructor; [done|]. by apply Forall_cons in Hcs as [? _].
    + apply IHr. by apply Forall_cons in Hcs as [_ ?].
Qed.

Lemma ToTensor_shape (H W C : nat) (pic : list (list (list pixel))) :
  (0 < H)%nat → (0 < W)%nat →
  has_shape3 H W C pic → has_shape3 C H W (ToTensor pic).
Proof.
  intros HH HW [Hlen Hrows].
  assert (Ht : has_shape2 H C (transpose <$> pic)).
  { split; [by rewrite length_fmap|].
    apply Forall_fmap. eapply Forall_impl; [exact Hrows|].
    intros row Hrow. by apply (transpose_shape W C). }
  assert (Hin : Forall (Forall (λ r : list pixel, length r = W))
                  (transpose <$> pic)).
  { apply Forall_fmap. eapply Forall_impl; [exact Hrows|].
    intros row Hrow. by apply (transpose_shape W C). }
  apply transpose_Forall in Hin.
  apply transpose_shape in Ht as [Htl Htr]; [|done].
  unfold ToTensor, transpose_2_0_1.
  split; [by rewrite length_fmap|].
  apply Forall_fmap, Forall_forall. intros ch Hch. simpl.
  split.
  - rewrite length_fmap. by eapply Forall_forall in Htr.
  - apply Forall_fmap. eapply Forall_forall in Hin; [|exact Hch].
    eapply Forall_impl; [exact Hin|].
    intros row Hrow. simpl. by rewrite length_fmap.
Qed.

Lemma transpose_triple {A} (l : list A) :
  l ≠ [] → transpose ((λ x, [x; x; x]) <$> l) = [l; l; l].
Proof.
  induction l as [|x l IH]; [done|]. intros _.
  destruct l as [|x' l]; [reflexivity|].
  change (transpose ((λ x, [x; x; x]) <$> x :: x' :: l))
    with (zip_with cons [x; x; x] (transpose ((λ x, [x; x; x]) <$> x' :: l))).
  by rewrite IH.
Qed.

Lemma Repeat_Unsqueeze (img : list (list pixel)) :
  Repeat 3 (Unsqueeze img)
  = (λ row : list pixel, (λ p : pixel, [p; p; p]) <$> row) <$> img.
Proof.
  unfold Repeat, Unsqueeze. rewrite <- list_fmap_compose.
  apply list_fmap_ext. intros _ row _. simpl.
  rewrite <- list_fmap_compose. by apply list_fmap_ext.
Qed.

(** The three channels of the output are three copies of the converted
    image. *)
Lemma transform_values (H W : nat) (img : list (list pixel)) :
  (0 < H)%nat → (0 < W)%nat → has_shape2 H W img →
  transform img
  = replicate 3 ((λ row : list pixel, to_float <$> row) <$> img).
Proof.
  intros HH HW [Hlen Hrows].
  unfold transform, ToTensor, transpose_2_0_1.
  rewrite Repeat_Unsqueeze, <- list_fmap_compose.
  rewrite (Forall_fmap_ext_1 _ (λ row : list pixel, [row; row; row]) img).
  - rewrite transpose_triple; [done|]. intros ->. simpl in Hlen. lia.
  - eapply Forall_impl; [exact Hrows|]. intros row Hrow. simpl.
    apply transpose_triple. intros ->. simpl in Hrow. lia.
Qed.

(** C2: for an image of shape (H, W) with H > 0 and W > 0 the pipeline
    unsqueeze, then repeat to 3 channels, then channel-first conversion
    yields an array of shape exactly (3, H, W); the intermediate shapes
    are (H, W, 1) and (H, W, 3), and each of the three channels is the
    converted image. *)
Theorem transform_shape (H W : nat) (img : list (list pixel)) :
  (0 < H)%nat → (0 < W)%nat → has_shape2 H W img →
  has_shape3 H W 1 (Unsqueeze img) ∧
  has_shape3 H W 3 (Repeat 3 (Unsqueeze img)) ∧
  transform img = ToTensor (Repeat 3 (Unsqueeze img)) ∧
  transform img = replicate 3 ((λ row : list pixel, to_float <$> row) <$> img) ∧
  has_shape3 3 H W (transform img).
Proof.
  intros HH HW Himg.
  pose proof (Unsqueeze_shape H W img Himg) as H1.
  pose proof (Repeat_shape 3 H W 1 _ H1) as H3.
  split; [exact H1|]. split; [exact H3|]. split; [reflexivity|].
  split; [by apply (transform_values H W)|].
  unfold transform. by apply (ToTensor_shape H W 3).
Qed.

End Pipeline.

Example transform_2x2 :
  transform (λ p : Z, p) [[1; 2]; [3; 4]]
  = [[[1; 2]; [3; 4]]; [[1; 2]; [3; 4]]; [[1; 2]; [3; 4]]].
Proof. reflexivity. Qed.

(** A 2 x 3 image of byte values, converted with the division by 255. *)
Lemma transform_shape_witness :
  has_shape3 3 2 3
    (transform (λ p : Z, (p # 255)%Q) [[0; 128; 255]; [7; 8; 9]]).
Proof.
  apply (transform_shape (λ p : Z, (p # 255)%Q) 2 3
           [[0; 128; 255]; [7; 8; 9]]); [lia|lia|].
  split; [reflexivity|]. repeat constructor.
Defined.

End Transform.

(** ** Train/test splits (cells "train/test split" and "adversarial
       validation") *)

Module Split.

(** Python's [int] on a real number truncates towards zero, [math.ceil]
    rounds up and [round] rounds to the nearest integer, ties to even.  The
    products of a length with 0.8 or 0.20 are taken as exact rationals. *)
Definition py_int (q : Q) : Z :=
  if Qle_bool 0 q then Qfloor q else Qceiling q.

Definition py_ceil (q : Q) : Z := Qceiling q.

Definition py_round (q : Q) : Z :=
  let f := Qfloor q in
  match (q - inject_Z f ?= 1 # 2)%Q with
  | Lt => f
  | Gt => f + 1
  | Eq => if Z.even f then f else f + 1
  end.

(** The two candidate train sizes for a data set of [n] samples:
    [floor(0.8 n)] and [round(0.8 n)]. *)
Definition floor_08 (n : nat) : nat :=
  Z.to_nat (Qfloor (inject_Z (Z.of_nat n) * (8 # 10))).

Definition round_08 (n : nat) : nat :=
  Z.to_nat (py_round (inject_Z (Z.of_nat n) * (8 # 10))).

(** [x[i], x[j] = x[j], x[i]]; both positions are inside the array wherever
    the shuffles below call it, and an array is returned unchanged
    otherwise. *)
Definition swap {A} (x : list A) (i j : nat) : list A :=
  match x !! i, x !! j with
  | Some a, Some b => <[j:=a]> (<[i:=b]> x)
  | _, _ => x
  end.

(** [indices[offset - length : offset]] for the running offsets of
    [lengths]: consecutive slices of the given lengths. *)
Fixpoint slices {A} (indices : list A) (lengths : list nat) : list (list A) :=
  match lengths with
  | [] => []
  | n :: lengths' => take n indices :: slices (drop n indices) lengths'
  end.

(** [X[indices]]: selection of the rows of an array by a list of
    positions; a position outside the array is an [IndexError]. *)
Definition take_rows {A} (X : list A) (indices : list nat) : option (list A) :=
  mapM (λ i, X !! i) indices.

(** Unfolds the rational arithmetic of a size computation down to integer
    division. *)
Ltac unfold_Q :=
  unfold Qceiling, Qfloor, Qopp, Qmult, inject_Z; cbn [Qnum Qden];
  rewrite ?Pos.mul_1_l, ?Pos.mul_1_r.

(** sklearn's [_validate_shuffle_split] for a float [test_size] and
    [train_size=None]: [n_test = ceil(test_size * n_samples)],
    [n_train = n_samples - n_test]; a [test_size] outside (0, 1) and an
    empty train set are a [ValueError] ([None]). *)
Definition validate_shuffle_split (n_samples : nat) (test_size : Q)
  : option (nat * nat) :=
  if negb (Qle_bool test_size 0) && negb (Qle_bool 1 test_size) then
    let n_test := Z.to_nat (py_ceil (test_size * inject_Z (Z.of_nat n_samples))) in
    let n_train := (n_samples - n_test)%nat in
    if (n_train =? 0)%nat then None else Some (n_train, n_test)
  else None.

(** Cell "adversarial validation":
    [train_len = int(len(adv_val_dataset) * 0.8)],
    [val_len = len(adv_val_dataset) - train_len]. *)
Definition train_len (n_dataset : nat) : nat :=
  Z.to_nat (py_int (inject_Z (Z.of_nat n_dataset) * (8 # 10))).

Definition val_len (n_dataset : nat) : nat := (n_dataset - train_len n_dataset)%nat.

(** Two lists of indices share no index; and together they hold exactly
    the indices [0 .. n-1]. *)
Definition disjoint_indices (train test : list nat) : Prop :=
  ∀ i, i ∈ train → i ∉ test.

Definition cover_indices (n : nat) (train test : list nat) : Prop :=
  ∀ i, (i < n)%nat ↔ i ∈ train ∨ i ∈ test.

(** *** Swaps, slices and sizes *)

Lemma swap_Permutation {A} (x : list A) (i j : nat) : swap x i j ≡ₚ x.
Proof.
  unfold swap.
  destruct (x !! i) as [a|] eqn:Hi; [|done].
  destruct (x !! j) as [b|] eqn:Hj; [|done].
  apply Permutation_inj. split; [by rewrite !length_insert|].
  exists (λ k, if decide (k = i) then j else if decide (k = j) then i else k).
  split.
  - intros k1 k2. repeat case_decide; congruence.
  - intros k. rewrite !list_lookup_insert, length_insert.
    apply lookup_lt_Some in Hi as Hli. apply lookup_lt_Some in Hj as Hlj.
    destruct (decide (k = i)) as [Hki|Hki];
      destruct (decide (k = j)) as [Hkj|Hkj]; subst;
      repeat first
        [ rewrite decide_True by (split; [reflexivity|lia])
        | rewrite decide_False by (intros [? _]; congruence) ];
      congruence.
Qed.

Lemma slices_partition (n a b : nat) (perm : list nat) :
  perm ≡ₚ seq 0 n → (a + b = n)%nat →
  let first := take a perm in
  let second := take b (drop a perm) in
  length first = a ∧ length second = b ∧
  NoDup first ∧ NoDup second ∧
  disjoint_indices first second ∧ cover_indices n first second.
Proof.
  intros Hperm Hab first second.
  assert (Hlen : length perm = n)
    by (by rewrite Hperm, length_seq).
  assert (Hsecond : second = drop a perm).
  { unfold second. apply take_ge. rewrite length_drop. lia. }
  assert (Hsplit : perm = first ++ second)
    by (by rewrite Hsecond; unfold first; rewrite take_drop).
  assert (Hnd : NoDup (first ++ second)).
  { rewrite <- Hsplit, Hperm. apply NoDup_seq. }
  apply NoDup_app in Hnd as (Hnd1 & Hdis & Hnd2).
  split; [unfold first; rewrite length_take; lia|].
  split; [rewrite Hsecond, length_drop; lia|].
  repeat split; try done.
  - intros Hi. rewrite <- elem_of_app, <- Hsplit, Hperm, elem_of_seq. lia.
  - rewrite <- elem_of_app, <- Hsplit, Hperm, elem_of_seq. lia.
Qed.

Lemma floor_08_div (n : nat) : floor_08 n = (4 * n / 5)%nat.
Proof. unfold floor_08. unfold_Q. lia. Qed.

Lemma floor_08_le (n : nat) : (floor_08 n ≤ n)%nat.
Proof. rewrite floor_08_div. lia. Qed.

Lemma train_len_floor (n : nat) : train_len n = floor_08 n.
Proof.
  unfold train_len, py_int, floor_08.
  rewrite (proj2 (Qle_bool_iff 0 _)); [reflexivity|].
  unfold Qle. unfold_Q. cbn [Qnum Qden]. lia.
Qed.

Lemma val_len_sum (n : nat) : (train_len n + val_len n = n)%nat.
Proof.
  unfold val_len. rewrite train_len_floor. pose proof (floor_08_le n). lia.
Qed.

Lemma n_test_fifth (n : nat) :
  Z.to_nat (py_ceil ((20 # 100) * inject_Z (Z.of_nat n)))
  = (n - floor_08 n)%nat.
Proof. rewrite floor_08_div. unfold py_ceil. unfold_Q. lia. Qed.

Lemma validate_shuffle_split_fifth (n : nat) :
  validate_shuffle_split n (20 # 100)
  = if (n <? 2)%nat then None else Some (floor_08 n, (n - floor_08 n)%nat).
Proof.
  unfold validate_shuffle_split.
  change (negb (Qle_bool (20 # 100) 0) && negb (Qle_bool 1 (20 # 100)))
    with true.
  cbv iota. rewrite n_test_fifth. pose proof (floor_08_le n) as Hfl.
  replace (n - (n - floor_08 n))%nat with (floor_08 n) by lia.
  cbv zeta. rewrite floor_08_div in *.
  destruct (Nat.ltb_spec n 2) as [Hn|Hn];
    destruct (Nat.eqb_spec (4 * n / 5) 0) as [H0|H0]; try done; lia.
Qed.

Lemma take_rows_Some {A} (X : list A) (indices : list nat) :
  Forall (λ i, (i < length X)%nat) indices →
  ∃ rows, take_rows X indices = Some rows ∧ length rows = length indices.
Proof.
  intros Hin.
  destruct (mapM_is_Some_2 (λ i, X !! i) indices) as [rows Hrows].
  { eapply Forall_impl; [exact Hin|]. intros i Hi. by apply lookup_lt_is_Some. }
  exists rows. split; [done|].
  apply mapM_Some_1, Forall2_length in Hrows. done.
Qed.

Lemma take_rows_length {A} (X rows : list A) (indices : list nat) :
  take_rows X indices = Some rows → length rows = length indices.
Proof. intros Hrows. by apply mapM_Some_1, Forall2_length in Hrows. Qed.

Lemma cover_indices_bound (n : nat) (train test : list nat) :
  cover_indices n train test →
  Forall (λ i, (i < n)%nat) train ∧ Forall (λ i, (i < n)%nat) test.
Proof.
  intros Hcov. split; apply Forall_forall; intros i Hi; apply Hcov; auto.
Qed.

Section Generator.
(** A pseudorandom generator: [seed_rng s] is the state of a generator
    seeded with [s], and [random_interval g m] draws an integer between 0
    and [m] inclusive and returns the advanced state.  Nothing below
    depends on which numbers are drawn. *)
Context {rng : Type}.
Variable seed_rng : Z → rng.
Variable random_interval : rng → nat → nat * rng.

(** The generators a Python process owns: numpy's global [RandomState]
    and torch's default generator. *)
Record process := Process { np_global : rng; torch_global : rng }.

(** numpy's [RandomState.shuffle]:
    [for i in reversed(range(1, n)): j = random_interval(i); swap]. *)
Fixpoint shuffle_loop {A} (i : nat) (g : rng) (x : list A) : list A * rng :=
  match i with
  | O => (x, g)
  | S i' =>
      let '(j, g') := random_interval g i in
      shuffle_loop i' g' (swap x i j)
  end.

Definition shuffle {A} (g : rng) (x : list A) : list A * rng :=
  shuffle_loop (length x - 1) g x.

(** [RandomState.permutation(n)]: [arange(n)], shuffled. *)
Definition permutation (g : rng) (n : nat) : list nat * rng :=
  shuffle g (seq 0 n).

(** torch's [randperm(n)] on the CPU:
    [for i in range(n - 1): z = random() % (n - i); swap(r[i], r[z + i])];
    [k] is the number of rounds left, [k = n - 1 - i]. *)
Fixpoint randperm_loop (k i : nat) (g : rng) (r : list nat) : list nat * rng :=
  match k with
  | O => (r, g)
  | S k' =>
      let '(z, g') := random_interval g k in
      randperm_loop k' (S i) g' (swap r i (z + i))
  end.

Definition randperm (g : rng) (n : nat) : list nat * rng :=
  randperm_loop (n - 1) 0 g (seq 0 n).

(** [ShuffleSplit(...).split]: one permutation from a generator freshly
    seeded with [random_state]; the test indices are its first [n_test]
    entries and the train indices the next [n_train].  The result is
    (train, test). *)
Definition shuffle_split (n_samples : nat) (test_size : Q) (random_state : Z)
  : option (list nat * list nat) :=
  '(n_train, n_test) ← validate_shuffle_split n_samples test_size;
  let perm := (permutation (seed_rng random_state) n_samples).1 in
  Some (take n_train (drop n_test perm), take n_test perm).

(** [train_test_split(X, y, test_size=..., random_state=...)]: arrays of
    different lengths are a [ValueError]; both arrays are indexed with
    the same train and test indices.  The result is
    [X_train, X_test, y_train, y_test].  The process generators are
    passed through untouched: the split draws from its own generator. *)
Definition train_test_split {A B} (X : list A) (y : list B)
    (test_size : Q) (random_state : Z) (w : process)
  : option (list A * list A * list B * list B) * process :=
  (if (length X =? length y)%nat then
     '(train, test) ← shuffle_split (length X) test_size random_state;
     X_train ← take_rows X train;
     X_test ← take_rows X test;
     y_train ← take_rows y train;
     y_test ← take_rows y test;
     Some (X_train, X_test, y_train, y_test)
   else None, w).

(** torch's [random_split(dataset, lengths)] with integer lengths: the
    lengths must add up to the size of the data set ([ValueError]
    otherwise); the subsets are consecutive slices of one permutation
    drawn from torch's default generator, which advances.  A subset is
    given by its list of indices into the data set. *)
Definition random_split (n_dataset : nat) (lengths : list nat) (w : process)
  : option (list (list nat)) * process :=
  if (sum_list lengths =? n_dataset)%nat then
    let '(indices, g') := randperm (torch_global w) (sum_list lengths) in
    (Some (slices indices lengths),
     {| np_global := np_global w; torch_global := g' |})
  else (None, w).

(** [random_split(dataset=adv_val_dataset, lengths=[train_len, val_len])]. *)
Definition adv_val_split (n_dataset : nat) (w : process)
  : option (list (list nat)) * process :=
  random_split n_dataset [train_len n_dataset; val_len n_dataset] w.

(** *** Shuffles are permutations *)

Lemma shuffle_loop_Permutation {A} (i : nat) (g : rng) (x : list A) :
  (shuffle_loop i g x).1 ≡ₚ x.
Proof.
  revert g x. induction i as [|i IH]; intros g x; simpl; [done|].
  destruct (random_interval g (S i)) as [j g'].
  rewrite IH. apply swap_Permutation.
Qed.

Lemma permutation_Permutation (g : rng) (n : nat) :
  (permutation g n).1 ≡ₚ seq 0 n.
Proof. apply shuffle_loop_Permutation. Qed.

Lemma randperm_loop_Permutation (k i : nat) (g : rng) (r : list nat) :
  (randperm_loop k i g r).1 ≡ₚ r.
Proof.
  revert i g r. induction k as [|k IH]; intros i g r; simpl; [done|].
  destruct (random_interval g (S k)) as [z g'].
  rewrite IH. apply swap_Permutation.
Qed.

Lemma randperm_Permutation (g : rng) (n : nat) :
  (randperm g n).1 ≡ₚ seq 0 n.
Proof. apply randperm_loop_Permutation. Qed.

(** *** The splits *)

Lemma shuffle_split_Some (n : nat) (test_size : Q) (random_state : Z)
    (train test : list nat) :
  shuffle_split n test_size random_state = Some (train, test) →
  ∃ n_train n_test,
    validate_shuffle_split n test_size = Some (n_train, n_test) ∧
    length train = n_train ∧ length test = n_test ∧
    disjoint_indices train test ∧ cover_indices n train test.
Proof.
  unfold shuffle_split. intros Hsplit.
  destruct (validate_shuffle_split n test_size) as [[n_train n_test]|] eqn:Hv;
    [|done].
  simpl in Hsplit. injection Hsplit as <- <-.
  exists n_train, n_test. split; [done|].
  assert (Hsum : (n_test + n_train = n)%nat).
  { unfold validate_shuffle_split in Hv.
    destruct (_ && _); [|done].
    destruct (Nat.eqb_spec (n - Z.to_nat (py_ceil (test_size * inject_Z (Z.of_nat n)))) 0);
      [done|].
    injection Hv as <- <-. lia. }
  destruct (slices_partition n n_test n_train _
              (permutation_Permutation (seed_rng random_state) n) Hsum)
    as (Hl1 & Hl2 & _ & _ & Hdis & Hcov).
  split; [done|]. split; [done|]. split.
  - intros i Htrain Htest. by apply (Hdis i).
  - intros i. rewrite (Hcov i). tauto.
Qed.

Lemma shuffle_split_fifth (n : nat) (random_state : Z) :
  (2 ≤ n)%nat →
  ∃ train test,
    shuffle_split n (20 # 100) random_state = Some (train, test) ∧
    length train = floor_08 n ∧ length test = (n - floor_08 n)%nat ∧
    disjoint_indices train test ∧ cover_indices n train test.
Proof.
  intros Hn.
  pose proof (validate_shuffle_split_fifth n) as Hv.
  destruct (Nat.ltb_spec n 2) as [?|_]; [lia|].
  destruct (shuffle_split n (20 # 100) random_state) as [[train test]|] eqn:Hs.
  - exists train, test. split; [done|].
    apply shuffle_split_Some in Hs
      as (n_train & n_test & Hv' & Hl1 & Hl2 & Hdis & Hcov).
    rewrite Hv in Hv'. injection Hv' as <- <-. done.
  - unfold shuffle_split in Hs. rewrite Hv in Hs. done.
Qed.

Lemma train_test_split_Some {A B} (X : list A) (y : list B)
    (test_size : Q) (random_state : Z) (w : process) (train test : list nat) :
  length X = length y →
  shuffle_split (length X) test_size random_state = Some (train, test) →
  ∃ X_train X_test y_train y_test,
    (train_test_split X y test_size random_state w).1
      = Some (X_train, X_test, y_train, y_test) ∧
    take_rows X train = Some X_train ∧ take_rows X test = Some X_test ∧
    take_rows y train = Some y_train ∧ take_rows y test = Some y_test ∧
    length X_train = length train ∧ length X_test = length test ∧
    length y_train = length train ∧ length y_test = length test.
Proof.
  intros Hlen Hs.
  destruct (shuffle_split_Some _ _ _ _ _ Hs) as (? & ? & _ & _ & _ & _ & Hcov).
  apply cover_indices_bound in Hcov as [Htrain Htest].
  destruct (take_rows_Some X train Htrain) as (X_train & HXtr & ?).
  destruct (take_rows_Some X test Htest) as (X_test & HXte & ?).
  rewrite Hlen in Htrain, Htest.
  destruct (take_rows_Some y train Htrain) as (y_train & Hytr & ?).
  destruct (take_rows_Some y test Htest) as (y_test & Hyte & ?).
  exists X_train, X_test, y_train, y_test.
  unfold train_test_split. rewrite <- Hlen, Nat.eqb_refl, Hs. simpl.
  rewrite HXtr, HXte, Hytr, Hyte. done.
Qed.

Lemma adv_val_split_Some (n : nat) (w : process) :
  ∃ train test,
    (adv_val_split n w).1 = Some [train; test] ∧
    length train = floor_08 n ∧ length test = (n - floor_08 n)%nat ∧
    disjoint_indices train test ∧ cover_indices n train test.
Proof.
  pose proof (val_len_sum n) as Hsum.
  unfold adv_val_split, random_split.
  replace (sum_list [train_len n; val_len n]) with n by (simpl; lia).
  rewrite Nat.eqb_refl.
  pose proof (randperm_Permutation (torch_global w) n) as Hperm.
  destruct (randperm (torch_global w) n) as [indices g']. simpl in *.
  destruct (slices_partition n _ _ _ Hperm Hsum)
    as (Hl1 & Hl2 & _ & _ & Hdis & Hcov).
  eexists _, _. split; [reflexivity|].
  rewrite Hl1, Hl2. unfold val_len in *. rewrite train_len_floor in *. done.
Qed.

(** C3 (as amended): with test fraction 0.2 the train part has
    floor(0.8 N) elements, not round(0.8 N), and the test part the
    remaining N - floor(0.8 N).  This holds for [random_split] with
    [train_len = int(0.8 N)] for every N and every generator state, and
    for [train_test_split(test_size=0.20)] for every seed and N >= 2 (for
    N < 2 the train part would be empty and the split is refused).  In
    both the train and test index sets are disjoint and their union is
    the full index set. *)
Theorem split_sizes_floor (n : nat) :
  (∀ w : process, ∃ train test,
      (adv_val_split n w).1 = Some [train; test] ∧
      length train = floor_08 n ∧ length test = (n - floor_08 n)%nat ∧
      disjoint_indices train test ∧ cover_indices n train test) ∧
  (∀ (A B : Type) (X : list A) (y : list B) (random_state : Z) (w : process),
      length X = n → length y = n → (2 ≤ n)%nat →
      ∃ train test X_train X_test y_train y_test,
        shuffle_split n (20 # 100) random_state = Some (train, test) ∧
        (train_test_split X y (20 # 100) random_state w).1
          = Some (X_train, X_test, y_train, y_test) ∧
        take_rows X train = Some X_train ∧ take_rows X test = Some X_test ∧
        take_rows y train = Some y_train ∧ take_rows y test = Some y_test ∧
        length train = floor_08 n ∧ length test = (n - floor_08 n)%nat ∧
        length X_train = floor_08 n ∧ length X_test = (n - floor_08 n)%nat ∧
        disjoint_indices train test ∧ cover_indices n train test) ∧
  (∀ random_state : Z,
      (n < 2)%nat → shuffle_split n (20 # 100) random_state = None).
Proof.
  split; [apply adv_val_split_Some|]. split.
  - intros A B X y random_state w HX Hy Hn.
    destruct (shuffle_split_fifth n random_state Hn)
      as (train & test & Hs & Hl1 & Hl2 & Hdis & Hcov).
    destruct (train_test_split_Some X y (20 # 100) random_state w train test)
      as (X_train & X_test & y_train & y_test & Hr & H1 & H2 & H3 & H4
          & L1 & L2 & _ & _);
      [congruence|by rewrite HX|].
    exists train, test, X_train, X_test, y_train, y_test.
    rewrite L1, L2, Hl1, Hl2. done.
  - intros random_state Hn. unfold shuffle_split.
    rewrite validate_shuffle_split_fifth.
    destruct (Nat.ltb_spec n 2); [done|lia].
Qed.

Lemma train_test_split_inv {A B} (X : list A) (y : list B)
    (test_size : Q) (random_state : Z) (w : process)
    X_train X_test y_train y_test :
  (train_test_split X y test_size random_state w).1
    = Some (X_train, X_test, y_train, y_test) →
  length X = length y ∧
  ∃ train test,
    shuffle_split (length X) test_size random_state = Some (train, test) ∧
    take_rows X train = Some X_train ∧ take_rows X test = Some X_test ∧
    take_rows y train = Some y_train ∧ take_rows y test = Some y_test ∧
    disjoint_indices train test ∧
    Forall (λ i, (i < length X)%nat) train ∧
    Forall (λ i, (i < length X)%nat) test.
Proof.
  unfold train_test_split. simpl.
  destruct (Nat.eqb_spec (length X) (length y)) as [Hlen|]; [|done].
  destruct (shuffle_split (length X) test_size random_state)
    as [[train test]|] eqn:Hs; [|done].
  simpl. intros Hr. split; [done|].
  destruct (take_rows X train) as [X1|] eqn:E1; [|done].
  destruct (take_rows X test) as [X2|] eqn:E2; [|done].
  destruct (take_rows y train) as [y1|] eqn:E3; [|done].
  destruct (take_rows y test) as [y2|] eqn:E4; [|done].
  simpl in Hr. injection Hr as <- <- <- <-.
  exists train, test.
  apply shuffle_split_Some in Hs as (? & ? & _ & _ & _ & Hdis & Hcov).
  apply cover_indices_bound in Hcov as [? ?]. done.
Qed.

(** C8: the train/validation split is a function of the seed and the
    input arrays alone: it neither reads nor advances the generators of
    the process, so two runs return the same parts whatever the state of
    those generators; and the parts it returns are the rows at two
    disjoint sets of indices of the same arrays.  ([random_split] draws
    from torch's default generator and is the same function of that
    generator's state in every run.) *)
Theorem train_test_split_deterministic {A B} (X : list A) (y : list B)
    (test_size : Q) (random_state : Z) :
  (∀ w1 w2 : process,
      (train_test_split X y test_size random_state w1).1
      = (train_test_split X y test_size random_state w2).1) ∧
  (∀ w : process, (train_test_split X y test_size random_state w).2 = w) ∧
  (∀ (w : process) X_train X_test y_train y_test,
      (train_test_split X y test_size random_state w).1
        = Some (X_train, X_test, y_train, y_test) →
      ∃ train test,
        shuffle_split (length X) test_size random_state = Some (train, test) ∧
        take_rows X train = Some X_train ∧ take_rows X test = Some X_test ∧
        take_rows y train = Some y_train ∧ take_rows y test = Some y_test ∧
        disjoint_indices train test ∧
        Forall (λ i, (i < length X)%nat) train ∧
        Forall (λ i, (i < length X)%nat) test) ∧
  (∀ (w1 w2 : process) (n : nat) (lengths : list nat),
      torch_global w1 = torch_global w2 →
      (random_split n lengths w1).1 = (random_split n lengths w2).1).
Proof.
  split; [done|]. split; [done|]. split.
  - intros w X_train X_test y_train y_test Hr.
    by apply train_test_split_inv in Hr as [_ Hr].
  - intros w1 w2 n lengths Hg. unfold random_split. rewrite Hg.
    destruct (_ =? _)%nat; [|done].
    by destruct (randperm (torch_global w2) (sum_list lengths)).
Qed.

End Generator.

(** *** A concrete generator

    A linear congruential generator, to run the splits on examples. *)

Definition lcg_seed (s : Z) : Z := s mod 2 ^ 31.

Definition lcg_interval (g : Z) (m : nat) : nat * Z :=
  let g' := (1103515245 * g + 12345) mod 2 ^ 31 in
  (Z.to_nat (g' mod (Z.of_nat m + 1)), g').

Definition lcg_process : process := Process (lcg_seed 42) (lcg_seed 42).

Example permutation_5 :
  (permutation lcg_interval (lcg_seed 42) 5).1 = [1; 3; 4; 0; 2]%nat.
Proof. reflexivity. Qed.

Example adv_val_split_7 :
  (adv_val_split lcg_interval 7 lcg_process).1
  = Some [[4; 3; 5; 2; 1]; [0; 6]]%nat.
Proof. reflexivity. Qed.

Example train_test_split_5 :
  (train_test_split lcg_seed lcg_interval
     [10; 11; 12; 13; 14] [0; 1; 1; 0; 1] (20 # 100) 42 lcg_process).1
  = Some ([13; 14; 10; 12], [11], [0; 1; 0; 1], [1]).
Proof. reflexivity. Qed.

(** A single sample cannot be split: the train part would be empty. *)
Example train_test_split_1 :
  (train_test_split lcg_seed lcg_interval [10] [0] (20 # 100) 42 lcg_process).1
  = None.
Proof. reflexivity. Qed.

(** C3 as stated fails for N = 2: round(0.8 * 2) = round(1.6) = 2, but both
    splits put one sample in the train part and one in the test part. *)
Lemma split_sizes_round_counterexample :
  round_08 2 = 2%nat ∧
  ¬ (∃ train test,
        (adv_val_split lcg_interval 2 lcg_process).1 = Some [train; test] ∧
        length train = round_08 2 ∧ length test = (2 - round_08 2)%nat) ∧
  ¬ (∃ X_train X_test y_train y_test,
        (train_test_split lcg_seed lcg_interval
           [10; 11] [0; 1] (20 # 100) 42 lcg_process).1
          = Some (X_train, X_test, y_train, y_test) ∧
        length X_train = round_08 2 ∧ length X_test = (2 - round_08 2)%nat).
Proof.
  split; [reflexivity|]. split.
  - intros (train & test & Hs & Hl & _).
    vm_compute in Hs. injection Hs as <- <-. discriminate Hl.
  - intros (X_train & X_test & y_train & y_test & Hs & Hl & _).
    vm_compute in Hs. injection Hs as <- <- <- <-. discriminate Hl.
Qed.

Lemma split_sizes_floor_witness :
  ∃ train test X_train X_test y_train y_test,
    shuffle_split lcg_seed lcg_interval 5 (20 # 100) 42 = Some (train, test) ∧
    (train_test_split lcg_seed lcg_interval
       [10; 11; 12; 13; 14] [0; 1; 1; 0; 1] (20 # 100) 42 lcg_process).1
      = Some (X_train, X_test, y_train, y_test) ∧
    take_rows [10; 11; 12; 13; 14] train = Some X_train ∧
    take_rows [10; 11; 12; 13; 14] test = Some X_test ∧
    take_rows [0; 1; 1; 0; 1] train = Some y_train ∧
    take_rows [0; 1; 1; 0; 1] test = Some y_test ∧
    length train = floor_08 5 ∧ length test = (5 - floor_08 5)%nat ∧
    length X_train = floor_08 5 ∧ length X_test = (5 - floor_08 5)%nat ∧
    disjoint_indices train test ∧ cover_indices 5 train test.
Proof.
  apply (proj1 (proj2 (split_sizes_floor lcg_seed lcg_interval 5)));
    [reflexivity|reflexivity|lia].
Defined.

Lemma train_test_split_deterministic_witness :
  ∃ train test,
    shuffle_split lcg_seed lcg_interval 5 (20 # 100) 42 = Some (train, test) ∧
    take_rows [10; 11; 12; 13; 14] train = Some [13; 14; 10; 12] ∧
    take_rows [10; 11; 12; 13; 14] test = Some [11] ∧
    take_rows [0; 1; 1; 0; 1] train = Some [0; 1; 0; 1] ∧
    take_rows [0; 1; 1; 0; 1] test = Some [1] ∧
    disjoint_indices train test ∧
    Forall (λ i, (i < 5)%nat) train ∧ Forall (λ i, (i < 5)%nat) test.
Proof.
  apply (proj1 (proj2 (proj2
           (train_test_split_deterministic lcg_seed lcg_interval
              [10; 11; 12; 13; 14] [0; 1; 1; 0; 1] (20 # 100) 42)))
           lcg_process).
  reflexivity.
Defined.

End Split.

(** ** The dataset adapter and the data loader *)

Module Dataset.

(** The outcome of an indexed access: a value, or Python's [IndexError]. *)
Inductive result (A : Type) : Type :=
| Ok (a : A)
| IndexError.
Arguments Ok {A} a.
Arguments IndexError {A}.

Section MRIDataset.
Context {image tensor label : Type}.

(** Modelled from the spec: [MRIDataset] of the repository's [dataset.py],
    which is not among the sources: a data set is constructed from an image
    array, a label array and a transform (every construction in the notebook
    passes one); it owns the two arrays as they are given. *)
Record MRIDataset := {
  images : list image;
  labels : list label;
  transform : image → tensor;
}.

(** Modelled from the spec: [length()] returns the sample count, the number
    of input images. *)
Definition len (d : MRIDataset) : nat := length (images d).

(** Modelled from the spec: [get(index)] returns
    [(transformed_image, label)], the transform being applied at each
    access; it fails with an [IndexError] when the index is out of bounds
    of the image array or of the label array.  Indices are the natural
    numbers that iteration and the samplers produce. *)
Definition get (d : MRIDataset) (index : nat) : result (tensor * label) :=
  match images d !! index with
  | Some img =>
      match labels d !! index with
      | Some lbl => Ok (transform d img, lbl)
      | None => IndexError
      end
  | None => IndexError
  end.

(** [for sample in dataset]: Python's sequence protocol calls [get] with
    0, 1, 2, ... and stops at the first [IndexError].  [fuel] bounds the
    number of accesses. *)
Fixpoint iterate_from (fuel index : nat) (d : MRIDataset) : list (tensor * label) :=
  match fuel with
  | O => []
  | S fuel' =>
      match get d index with
      | Ok sample => sample :: iterate_from fuel' (S index) d
      | IndexError => []
      end
  end.

(** One access more than there are images always reaches the
    [IndexError] ([iterate_complete] below). *)
Definition iterate (d : MRIDataset) : list (tensor * label) :=
  iterate_from (S (len d)) 0 d.

(** torch's [BatchSampler] with [drop_last=False]: indices are appended to
    the current batch, a full batch is emitted, and a last, shorter batch is
    emitted if it is not empty. *)
Fixpoint batch_sampler (batch_size : nat) (sampler : list nat) (batch : list nat)
  : list (list nat) :=
  match sampler with
  | [] => match batch with [] => [] | _ :: _ => [batch] end
  | idx :: sampler' =>
      let batch' := batch ++ [idx] in
      if (length batch' =? batch_size)%nat
      then batch' :: batch_sampler batch_size sampler' []
      else batch_sampler batch_size sampler' batch'
  end.

(** The samples of one batch, [[dataset[i] for i in batch]]; an
    [IndexError] of any access aborts the batch. *)
Fixpoint fetch (d : MRIDataset) (batch : list nat) : result (list (tensor * label)) :=
  match batch with
  | [] => Ok []
  | i :: batch' =>
      match get d i with
      | Ok sample =>
          match fetch d batch' with
          | Ok samples => Ok (sample :: samples)
          | IndexError => IndexError
          end
      | IndexError => IndexError
      end
  end.

Fixpoint fetch_all (d : MRIDataset) (batches : list (list nat))
  : result (list (list (tensor * label))) :=
  match batches with
  | [] => Ok []
  | batch :: batches' =>
      match fetch d batch with
      | Ok samples =>
          match fetch_all d batches' with
          | Ok rest => Ok (samples :: rest)
          | IndexError => IndexError
          end
      | IndexError => IndexError
      end
  end.

(** [DataLoader(dataset, batch_size=..., shuffle=False)], iterated once:
    the sequential sampler [range(len(dataset))], cut into batches. *)
Definition DataLoader (d : MRIDataset) (batch_size : nat)
  : result (list (list (tensor * label))) :=
  fetch_all d (batch_sampler batch_size (seq 0 (len d)) []).

(** The samples of a data set whose arrays are paired. *)
Definition samples (d : MRIDataset) : list (tensor * label) :=
  zip_with (λ img lbl, (transform d img, lbl)) (images d) (labels d).

Lemma get_Ok (d : MRIDataset) (i : nat) :
  (length (images d) ≤ length (labels d))%nat → (i < len d)%nat →
  ∃ img lbl,
    images d !! i = Some img ∧ labels d !! i = Some lbl ∧
    get d i = Ok (transform d img, lbl).
Proof.
  unfold len, get. intros Hle Hi.
  destruct (lookup_lt_is_Some_2 (images d) i Hi) as [img Himg].
  destruct (lookup_lt_is_Some_2 (labels d) i) as [lbl Hlbl]; [lia|].
  exists img, lbl. by rewrite Himg, Hlbl.
Qed.

Lemma get_IndexError (d : MRIDataset) (i : nat) :
  (len d ≤ i)%nat → get d i = IndexError.
Proof.
  unfold len, get. intros Hi. by rewrite (lookup_ge_None_2 (images d) i Hi).
Qed.

Lemma iterate_from_drop (d : MRIDataset) (fuel i : nat) :
  (length (images d) - i < fuel)%nat →
  iterate_from fuel i d
  = zip_with (λ img lbl, (transform d img, lbl))
      (drop i (images d)) (drop i (labels d)).
Proof.
  revert i. induction fuel as [|fuel IH]; intros i Hfuel; [lia|].
  simpl. unfold get.
  destruct (images d !! i) as [img|] eqn:Himg.
  - rewrite (drop_S _ _ _ Himg).
    destruct (labels d !! i) as [lbl|] eqn:Hlbl.
    + rewrite (drop_S _ _ _ Hlbl). simpl. f_equal.
      apply IH. apply lookup_lt_Some in Himg. lia.
    + apply lookup_ge_None in Hlbl. by rewrite (drop_ge (labels d)).
  - apply lookup_ge_None in Himg. by rewrite (drop_ge (images d)).
Qed.

(** The iteration stops at the [IndexError], not for lack of fuel, and
    yields the paired samples in order. *)
Lemma iterate_complete (d : MRIDataset) : iterate d = samples d.
Proof.
  unfold iterate, samples. rewrite iterate_from_drop by (unfold len; lia).
  by rewrite !drop_0.
Qed.

Lemma length_samples (d : MRIDataset) :
  (length (images d) ≤ length (labels d))%nat → length (samples d) = len d.
Proof. intros Hle. unfold samples, len. rewrite length_zip_with. lia. Qed.

Lemma batch_sampler_concat (batch_size : nat) (sampler batch : list nat) :
  concat (batch_sampler batch_size sampler batch) = batch ++ sampler.
Proof.
  revert batch. induction sampler as [|idx sampler IH]; intros batch; simpl.
  - destruct batch; simpl; by rewrite ?app_nil_r.
  - destruct (_ =? _)%nat; simpl; rewrite IH; by rewrite <- ?app_assoc.
Qed.

Lemma fetch_seq (d : MRIDataset) (k i : nat) :
  (length (images d) ≤ length (labels d))%nat → (i + k = len d)%nat →
  fetch d (seq i k)
  = Ok (zip_with (λ img lbl, (transform d img, lbl))
          (drop i (images d)) (drop i (labels d))).
Proof.
  intros Hle. revert i. induction k as [|k IH]; intros i Hik; simpl.
  - unfold len in Hik. by rewrite (drop_ge (images d)) by lia.
  - destruct (get_Ok d i Hle) as (img & lbl & Himg & Hlbl & ->); [lia|].
    rewrite IH by lia.
    by rewrite (drop_S _ _ _ Himg), (drop_S _ _ _ Hlbl).
Qed.

Lemma fetch_app_inv (d : MRIDataset) (l1 l2 : list nat) s :
  fetch d (l1 ++ l2) = Ok s →
  ∃ s1 s2, fetch d l1 = Ok s1 ∧ fetch d l2 = Ok s2 ∧ s = s1 ++ s2.
Proof.
  revert s. induction l1 as [|i l1 IH]; intros s; simpl.
  - intros Hs. by exists [], s.
  - destruct (get d i) as [sample|]; [|done].
    destruct (fetch d (l1 ++ l2)) as [s'|]; [|done].
    intros [= <-]. destruct (IH s' eq_refl) as (s1 & s2 & -> & -> & ->).
    by exists (sample :: s1), s2.
Qed.

Lemma fetch_all_concat (d : MRIDataset) (batches : list (list nat)) s :
  fetch d (concat batches) = Ok s →
  ∃ fetched, fetch_all d batches = Ok fetched ∧ concat fetched = s.
Proof.
  revert s. induction batches as [|batch batches IH]; intros s; simpl.
  - intros [= <-]. by exists [].
  - intros Hs. apply fetch_app_inv in Hs as (s1 & s2 & -> & Hs2 & ->).
    destruct (IH s2 Hs2) as (fetched & -> & <-).
    by exists (s1 :: fetched).
Qed.

(** One pass over the loader visits every sample of the data set exactly
    once, in order. *)
Lemma DataLoader_samples (d : MRIDataset) (batch_size : nat) :
  (length (images d) ≤ length (labels d))%nat →
  ∃ batches, DataLoader d batch_size = Ok batches ∧ concat batches = samples d.
Proof.
  intros Hle. unfold DataLoader. apply fetch_all_concat.
  rewrite batch_sampler_concat. simpl.
  rewrite (fetch_seq d (len d) 0 Hle eq_refl). by rewrite !drop_0.
Qed.

(** C5: for a data set built from an image array and a label array (the
    label array at least as long as the image array, as it is when the two
    have equal length), [length()] is the number of input images, [get(i)]
    returns the transformed image and the label at [i] for every
    [0 <= i < length()], and [get] fails with an [IndexError] for every
    index beyond. *)
Theorem dataset_get_in_bounds (d : MRIDataset) :
  (length (images d) ≤ length (labels d))%nat →
  len d = length (images d) ∧
  (∀ i, (i < len d)%nat →
        ∃ img lbl,
          images d !! i = Some img ∧ labels d !! i = Some lbl ∧
          get d i = Ok (transform d img, lbl)) ∧
  (∀ i, (len d ≤ i)%nat → get d i = IndexError).
Proof.
  intros Hle. split; [reflexivity|]. split.
  - intros i Hi. by apply get_Ok.
  - apply get_IndexError.
Qed.

End MRIDataset.

Arguments MRIDataset : clear implicits.

(** Three samples, with a transform that doubles the "image". *)
Definition toy_dataset : MRIDataset Z Z Z :=
  {| images := [10; 20; 30]; labels := [0; 1; 1]; transform := λ x, 2 * x |}.

Lemma dataset_get_in_bounds_witness :
  len toy_dataset = 3%nat ∧
  (∃ img lbl, images toy_dataset !! 2%nat = Some img ∧
              labels toy_dataset !! 2%nat = Some lbl ∧
              get toy_dataset 2 = Ok (transform toy_dataset img, lbl)) ∧
  get toy_dataset 3 = IndexError.
Proof.
  destruct (dataset_get_in_bounds toy_dataset) as (Hlen & Hin & Hout);
    [vm_compute; lia|].
  split; [exact Hlen|]. split.
  - apply Hin. vm_compute. lia.
  - apply Hout. vm_compute. lia.
Defined.

End Dataset.

(** ** Evaluation and metrics *)

Module Metrics.
Import Dataset.

(** [torch.argmax] of one row of class scores: the position of the first
    largest entry. *)
Fixpoint argmax_from (best_index : nat) (best : Q) (index : nat) (scores : list Q)
  : nat :=
  match scores with
  | [] => best_index
  | x :: scores' =>
      if Qle_bool x best
      then argmax_from best_index best (S index) scores'
      else argmax_from index x (S index) scores'
  end.

Definition argmax (scores : list Q) : nat :=
  match scores with
  | [] => 0%nat
  | x :: scores' => argmax_from 0 x 1 scores'
  end.

(** Modelled from the spec: the metrics record of the repository's
    [train.py], which is not among the sources: the total loss and the list
    of (true label, predicted label) pairs of one evaluation. *)
Record metrics := {
  loss : Q;
  pairs : list (Z * Z);
}.

(** The number of pairs whose predicted label equals the true label. *)
Definition count_correct (pairs : list (Z * Z)) : nat :=
  length (filter (λ p, p.1 = p.2) pairs).

Section Evaluation.
Context {tensor : Type}.
(** The forward pass of the model in evaluation mode, one sample at a time,
    and the loss of one batch of outputs against its labels. *)
Variable model : tensor → list Q.
Variable criterion : list (list Q) → list Z → Q.

Definition predict (x : tensor) : Z := Z.of_nat (argmax (model x)).

(** Modelled from the spec: [validate_epoch] of the repository's
    [train.py], which is not among the sources: it iterates the whole data
    loader once, accumulating the loss and, per sample, the true label and
    the predicted class (argmax of the model output). *)
Fixpoint validate_batches (batches : list (list (tensor * Z))) (m : metrics)
  : metrics :=
  match batches with
  | [] => m
  | batch :: batches' =>
      let outputs := (λ s : tensor * Z, model s.1) <$> batch in
      let targets := (λ s : tensor * Z, s.2) <$> batch in
      let predicted := (λ o, Z.of_nat (argmax o)) <$> outputs in
      validate_batches batches'
        {| loss := (loss m + criterion outputs targets)%Q;
           pairs := pairs m ++ zip targets predicted |}
  end.

Definition validate_epoch (dataloader : list (list (tensor * Z))) : metrics :=
  validate_batches dataloader {| loss := 0; pairs := [] |}.

(** Modelled from the spec: the accuracy of [metrics_callback] of the
    repository's [train.py]: the fraction of exact label matches among all
    samples of the record (the textual report is left out).  Without any
    sample there is no fraction. *)
Definition metrics_callback (m : metrics) : option Q :=
  match length (pairs m) with
  | O => None
  | S _ as total => Some (Z.of_nat (count_correct (pairs m)) # Pos.of_nat total)
  end.

(** The number of samples of a data set that the model classifies as
    labelled. *)
Definition correct {image} (d : MRIDataset image tensor Z) : nat :=
  length (filter (λ s : tensor * Z, s.2 = predict s.1) (samples d)).

Lemma validate_batches_pairs (batches : list (list (tensor * Z))) (m : metrics) :
  pairs (validate_batches batches m)
  = pairs m ++ ((λ s : tensor * Z, (s.2, predict s.1)) <$> concat batches).
Proof.
  revert m. induction batches as [|batch batches IH]; intros m; simpl.
  - by rewrite app_nil_r.
  - rewrite IH. cbn [pairs]. rewrite fmap_app, <- app_assoc.
    f_equal. f_equal.
    clear. induction batch as [|s batch IHb]; [done|].
    rewrite !fmap_cons. simpl. by rewrite IHb.
Qed.

Lemma count_correct_fmap (l : list (tensor * Z)) :
  count_correct ((λ s : tensor * Z, (s.2, predict s.1)) <$> l)
  = length (filter (λ s : tensor * Z, s.2 = predict s.1) l).
Proof.
  unfold count_correct. induction l as [|s l IH]; [done|].
  rewrite fmap_cons, !filter_cons. simpl.
  destruct (decide (s.2 = predict s.1)); simpl; by rewrite IH.
Qed.

Lemma count_correct_le (l : list (Z * Z)) : (count_correct l ≤ length l)%nat.
Proof. apply length_filter. Qed.

Lemma accuracy_range (c t : nat) :
  (c ≤ t)%nat → (0 < t)%nat →
  (0 <= Z.of_nat c # Pos.of_nat t)%Q ∧ (Z.of_nat c # Pos.of_nat t <= 1)%Q.
Proof.
  intros Hc Ht. unfold Qle. simpl. split; [lia|].
  rewrite Z.mul_1_r. lia.
Qed.

(** C6: one evaluation pass over a (non-empty) data set records one (true
    label, predicted label) pair per sample, and the accuracy derived from
    the record is exactly the number of samples whose predicted class equals
    the true label, divided by the total number of samples; it lies between
    0 and 1. *)
Theorem accuracy_exact {image} (d : MRIDataset image tensor Z) (batch_size : nat) :
  (length (images d) ≤ length (labels d))%nat → (0 < len d)%nat →
  ∃ batches accuracy,
    DataLoader d batch_size = Ok batches ∧
    pairs (validate_epoch batches)
      = (λ s : tensor * Z, (s.2, predict s.1)) <$> samples d ∧
    length (pairs (validate_epoch batches)) = len d ∧
    metrics_callback (validate_epoch batches) = Some accuracy ∧
    accuracy = (Z.of_nat (correct d) # Pos.of_nat (len d))%Q ∧
    (correct d ≤ len d)%nat ∧
    (0 <= accuracy)%Q ∧ (accuracy <= 1)%Q.
Proof.
  intros Hle Hpos.
  destruct (DataLoader_samples d batch_size Hle) as (batches & Hload & Hcat).
  assert (Hpairs : pairs (validate_epoch batches)
                   = (λ s : tensor * Z, (s.2, predict s.1)) <$> samples d).
  { unfold validate_epoch. rewrite validate_batches_pairs. simpl.
    by rewrite Hcat. }
  assert (Hlen : length (pairs (validate_epoch batches)) = len d).
  { by rewrite Hpairs, length_fmap, length_samples. }
  assert (Hcorrect : count_correct (pairs (validate_epoch batches)) = correct d).
  { rewrite Hpairs. apply count_correct_fmap. }
  assert (Hcle : (correct d ≤ len d)%nat).
  { rewrite <- Hcorrect, <- Hlen. apply count_correct_le. }
  exists batches, (Z.of_nat (correct d) # Pos.of_nat (len d))%Q.
  split; [done|]. split; [done|]. split; [done|]. split.
  - unfold metrics_callback. rewrite Hlen, Hcorrect.
    destruct (len d); [lia|done].
  - split; [done|]. split; [done|]. by apply accuracy_range.
Qed.

End Evaluation.

(** A model that prefers class 1 when its input exceeds 50, and a loss that
    counts the samples of a batch. *)
Definition toy_model (x : Z) : list Q := [50 # 1; x # 1]%Q.

Definition toy_criterion (outputs : list (list Q)) (targets : list Z) : Q :=
  (Z.of_nat (length outputs) # 1)%Q.

Example toy_accuracy :
  DataLoader toy_dataset 2 = Ok [[(20, 0); (40, 1)]; [(60, 1)]] ∧
  pairs (validate_epoch toy_model toy_criterion [[(20, 0); (40, 1)]; [(60, 1)]])
    = [(0, 0); (1, 0); (1, 1)] ∧
  metrics_callback
    (validate_epoch toy_model toy_criterion [[(20, 0); (40, 1)]; [(60, 1)]])
    = Some (2 # 3)%Q.
Proof. repeat split; reflexivity. Qed.

Lemma accuracy_exact_witness :
  ∃ batches accuracy,
    DataLoader toy_dataset 2 = Ok batches ∧
    pairs (validate_epoch toy_model toy_criterion batches)
      = (λ s : Z * Z, (s.2, predict toy_model s.1)) <$> samples toy_dataset ∧
    length (pairs (validate_epoch toy_model toy_criterion batches))
      = len toy_dataset ∧
    metrics_callback (validate_epoch toy_model toy_criterion batches)
      = Some accuracy ∧
    accuracy = (Z.of_nat (correct toy_model toy_dataset)
                # Pos.of_nat (len toy_dataset))%Q ∧
    (correct toy_model toy_dataset ≤ len toy_dataset)%nat ∧
    (0 <= accuracy)%Q ∧ (accuracy <= 1)%Q.
Proof.
  apply (accuracy_exact toy_model toy_criterion toy_dataset 2);
    vm_compute; lia.
Defined.

End Metrics.

(** ** The notebook: arrays and data sets *)

Module Notebook.
Import Labels Transform Split Dataset.

(** [np.zeros(n)] and [np.ones(n)] are arrays of floats; [astype(np.int64)]
    truncates each to a 64-bit integer. *)
Definition np_zeros (n : nat) : list Q := replicate n 0%Q.
Definition np_ones (n : nat) : list Q := replicate n 1%Q.

Definition int64 (z : Z) : Z := (z + 2 ^ 63) mod 2 ^ 64 - 2 ^ 63.

Definition astype_int64 (a : list Q) : list Z := (λ q, int64 (py_int q)) <$> a.

(** [np.concatenate([a, b])] on two arrays along their first axis. *)
Definition np_concatenate {A} (a b : list A) : list A := a ++ b.

(** The entry of an array of scores at a position ([0] outside of it, where
    no entry is ever read). *)
Definition score_at (scores : list Q) (i : nat) : Q := default 0%Q (scores !! i).

(** The order in which [np.argsort] arranges positions: by ascending
    score. *)
Definition score_le (scores : list Q) (i j : nat) : Prop :=
  Is_true (Qle_bool (score_at scores i) (score_at scores j)).

(** [np.argsort(a)]: the positions of [a], sorted by ascending entry.  The
    sort here is a merge sort; numpy's may order positions of equal entries
    differently, and the facts proved below hold for any sorted permutation
    of the positions ([top_scores]). *)
Definition np_argsort (a : list Q) : list nat :=
  merge_sort (score_le a) (seq 0 (length a)).

(** [l[-k:]] for a positive [k]: the last [k] entries, or all of [l] if it
    has fewer. *)
Definition last_entries {A} (k : nat) (l : list A) : list A :=
  drop (length l - k) l.

(** The number of synthetic images the filter keeps, 6000. *)
Definition n_keep : nat := Z.to_nat 6000.

(** *** Sorting positions by score *)

Global Instance score_le_total (a : list Q) : Total (score_le a).
Proof.
  intros i j. unfold score_le. rewrite !Is_true_true, !Qle_bool_iff.
  unfold Qle. lia.
Qed.

Global Instance score_le_trans (a : list Q) : Transitive (score_le a).
Proof.
  intros i j k. unfold score_le. rewrite !Is_true_true, !Qle_bool_iff.
  apply Qle_trans.
Qed.

Lemma np_argsort_sorted (a : list Q) :
  StronglySorted (score_le a) (np_argsort a) ∧
  np_argsort a ≡ₚ seq 0 (length a).
Proof.
  split; [apply StronglySorted_merge_sort; apply _|].
  apply merge_sort_Permutation.
Qed.

(** The last [k] entries of any sorted permutation of the positions
    [0 .. n-1] are [min k n] distinct positions, and none of the positions
    left out has a larger score than one that is kept. *)
Lemma top_scores (a : list Q) (n k : nat) (idx : list nat) :
  idx ≡ₚ seq 0 n → StronglySorted (score_le a) idx →
  length (last_entries k idx) = (k `min` n)%nat ∧
  NoDup (last_entries k idx) ∧
  (∀ i, i ∈ last_entries k idx → (i < n)%nat) ∧
  (∀ i j, i ∈ last_entries k idx → (j < n)%nat → j ∉ last_entries k idx →
          score_le a j i).
Proof.
  intros Hperm Hsorted. unfold last_entries.
  assert (Hlen : length idx = n) by (by rewrite Hperm, length_seq).
  rewrite Hlen.
  rewrite <- (take_drop (n - k) idx) in Hperm, Hsorted.
  assert (Hnd : NoDup (take (n - k) idx ++ drop (n - k) idx)).
  { rewrite Hperm. apply NoDup_seq. }
  apply NoDup_app in Hnd as (_ & _ & Hnd).
  split; [rewrite length_drop; lia|]. split; [done|]. split.
  - intros i Hi. apply (elem_of_seq 0 n i).
    rewrite <- Hperm. apply elem_of_app. by right.
  - intros i j Hi Hj Hout.
    apply (StronglySorted_app_1_elem_of _ _ _ _ _ Hsorted); [|done].
    assert (Hin : j ∈ take (n - k) idx ++ drop (n - k) idx).
    { rewrite Hperm. apply elem_of_seq. lia. }
    apply elem_of_app in Hin as [?|?]; done.
Qed.

Lemma take_rows_lookup {A} (X rows : list A) (idx : list nat) (k i : nat) :
  take_rows X idx = Some rows → idx !! k = Some i → rows !! k = X !! i.
Proof.
  intros Hrows Hk. apply mapM_Some_1 in Hrows.
  destruct (Forall2_lookup_l _ _ _ _ _ Hrows Hk) as (x & -> & Hx). done.
Qed.

Section AdversarialValidation.
Context {pixel : Type}.

(** Cell "adversarial validation": synthetic samples are labelled 0, real
    samples 1. *)
Definition all_images (synth_images real_images : list (list (list pixel)))
  : list (list (list pixel)) :=
  np_concatenate synth_images real_images.

Definition all_labels (synth_images real_images : list (list (list pixel)))
  : list Z :=
  astype_int64
    (np_concatenate (np_zeros (length synth_images)) (np_ones (length real_images))).

(** *** Adversarial-validation labels *)

Lemma all_labels_eq (synth_images real_images : list (list (list pixel))) :
  all_labels synth_images real_images
  = replicate (length synth_images) 0 ++ replicate (length real_images) 1.
Proof.
  unfold all_labels, astype_int64, np_concatenate, np_zeros, np_ones.
  by rewrite fmap_app, !fmap_replicate.
Qed.

(** C9: the combined image and label arrays both have length
    [len(synth_images) + len(real_images)]; sample [i] is the [i]-th
    synthetic image with label 0 when [i < len(synth_images)], and the
    [(i - len(synth_images))]-th real image with label 1 otherwise; so its
    label is 0 exactly when it came from the synthetic set. *)
Theorem all_labels_spec (synth_images real_images : list (list (list pixel))) :
  let n_synth := length synth_images in
  length (all_images synth_images real_images)
    = (n_synth + length real_images)%nat ∧
  length (all_labels synth_images real_images)
    = (n_synth + length real_images)%nat ∧
  ∀ i, (i < n_synth + length real_images)%nat →
    (all_labels synth_images real_images !! i = Some 0 ↔ (i < n_synth)%nat) ∧
    (all_labels synth_images real_images !! i = Some 1 ↔ (n_synth ≤ i)%nat) ∧
    ((i < n_synth)%nat →
       all_images synth_images real_images !! i = synth_images !! i) ∧
    ((n_synth ≤ i)%nat →
       all_images synth_images real_images !! i
       = real_images !! (i - n_synth)%nat).
Proof.
  intros n_synth. unfold all_images, np_concatenate.
  rewrite all_labels_eq, !length_app, !length_replicate.
  split; [done|]. split; [done|].
  intros i Hi. destruct (decide (i < n_synth)%nat) as [Hlt|Hge].
  - rewrite !lookup_app_l by (rewrite ?length_replicate; done).
    rewrite lookup_replicate_2 by done.
    repeat split; try done; try lia; intros; congruence.
  - rewrite !lookup_app_r by (rewrite ?length_replicate; lia).
    rewrite length_replicate, lookup_replicate_2 by (fold n_synth; lia).
    repeat split; try done; try lia; intros; congruence.
Qed.

End AdversarialValidation.

Section Filter.
Context {pixel value : Type}.
Variable to_float : pixel → value.
(** The score of one transformed image under the adversarial model,
    [torch.softmax(model(img.unsqueeze(0)), dim=1)[0][1].item()]: the
    probability the model gives to the image being real. *)
Variable score : list (list (list value)) → Q.

(** [MRIDataset(images=..., labels=..., transform=transform)] with the
    [transform] of cell "image transformation". *)
Definition mri_dataset (images : list (list (list pixel))) (labels : list Z)
  : MRIDataset (list (list pixel)) (list (list (list value))) Z :=
  {| Dataset.images := images; Dataset.labels := labels;
     Dataset.transform := Transform.transform to_float |}.

(** Cell "filter bad images":
    [for img, _ in synth_dataset: ... scores.append(score)]. *)
Definition scores (synth_images : list (list (list pixel))) (synth_labels : list Z)
  : list Q :=
  (λ s : list (list (list value)) * Z, score s.1)
  <$> iterate (mri_dataset synth_images synth_labels).

(** [indices = np.argsort(scores)[-6000:]]. *)
Definition indices (synth_images : list (list (list pixel))) (synth_labels : list Z)
  : list nat :=
  last_entries n_keep (np_argsort (scores synth_images synth_labels)).

(** [good_synth_images = synth_images[indices]],
    [good_synth_labels = synth_labels[indices]]. *)
Definition good_synth_images (synth_images : list (list (list pixel)))
    (synth_labels : list Z) : option (list (list (list pixel))) :=
  take_rows synth_images (indices synth_images synth_labels).

Definition good_synth_labels (synth_images : list (list (list pixel)))
    (synth_labels : list Z) : option (list Z) :=
  take_rows synth_labels (indices synth_images synth_labels).

(** *** The score filter *)

Lemma length_scores (synth_images : list (list (list pixel))) (synth_labels : list Z) :
  length synth_images = length synth_labels →
  length (scores synth_images synth_labels) = length synth_images.
Proof.
  intros Hlen. unfold scores.
  rewrite length_fmap, iterate_complete, length_samples; [done|].
  simpl. lia.
Qed.

(** C10: the filter keeps the samples at the last (at most) 6000 positions
    of the argsort of the scores: [min(6000, len(synth_images))] distinct
    positions; the kept images and the kept labels are the rows of
    [synth_images] and [synth_labels] at these same positions, in the same
    order; and every kept sample has a score at least as large as every
    sample left out. *)
Theorem filter_keeps_top_scores
    (synth_images : list (list (list pixel))) (synth_labels : list Z) :
  length synth_images = length synth_labels →
  let kept := indices synth_images synth_labels in
  let scores := scores synth_images synth_labels in
  ∃ good_images good_labels,
    good_synth_images synth_images synth_labels = Some good_images ∧
    good_synth_labels synth_images synth_labels = Some good_labels ∧
    length good_images = (n_keep `min` length synth_images)%nat ∧
    length good_labels = (n_keep `min` length synth_images)%nat ∧
    NoDup kept ∧
    (∀ k i, kept !! k = Some i →
            (i < length synth_images)%nat ∧
            good_images !! k = synth_images !! i ∧
            good_labels !! k = synth_labels !! i) ∧
    (∀ i j, i ∈ kept → (j < length synth_images)%nat → j ∉ kept →
            (score_at scores j <= score_at scores i)%Q).
Proof.
  intros Hlen kept scs.
  destruct (np_argsort_sorted scs) as [Hsorted Hperm].
  unfold scs in Hperm at 2. rewrite length_scores in Hperm by done.
  destruct (top_scores scs (length synth_images) n_keep _ Hperm Hsorted)
    as (Hk & Hnd & Hin & Htop).
  change (last_entries n_keep (np_argsort scs)) with kept in Hk, Hnd, Hin, Htop.
  assert (Hrange : Forall (λ i, (i < length synth_images)%nat) kept)
    by (by apply Forall_forall).
  destruct (take_rows_Some synth_images kept Hrange) as (gi & Hgi & Hgil).
  rewrite Hlen in Hrange.
  destruct (take_rows_Some synth_labels kept Hrange) as (gl & Hgl & Hgll).
  exists gi, gl. unfold good_synth_images, good_synth_labels.
  fold kept. split; [done|]. split; [done|].
  split; [lia|]. split; [lia|]. split; [done|]. split.
  - intros k i Hki. split.
    + apply Hin. by eapply list_elem_of_lookup_2.
    + split; by eapply take_rows_lookup.
  - intros i j Hi Hj Hout.
    specialize (Htop i j Hi Hj Hout). unfold score_le in Htop.
    by apply Is_true_true, Qle_bool_iff in Htop.
Qed.

End Filter.

Section Datasets.
Context {pixel value rng : Type}.
Variable to_float : pixel → value.
Variable seed_rng : Z → rng.
Variable random_interval : rng → nat → nat * rng.
Variable score : list (list (list value)) → Q.

(** The data sets the notebook constructs. *)
Record datasets := {
  synth_train_dataset : MRIDataset (list (list pixel)) (list (list (list value))) Z;
  synth_test_dataset : MRIDataset (list (list pixel)) (list (list (list value))) Z;
  real_train_dataset : MRIDataset (list (list pixel)) (list (list (list value))) Z;
  real_test_dataset : MRIDataset (list (list pixel)) (list (list (list value))) Z;
  real_final_dataset : MRIDataset (list (list pixel)) (list (list (list value))) Z;
  adv_val_dataset : MRIDataset (list (list pixel)) (list (list (list value))) Z;
  synth_dataset : MRIDataset (list (list pixel)) (list (list (list value))) Z;
  real_dataset : MRIDataset (list (list pixel)) (list (list (list value))) Z;
  good_synth_dataset : MRIDataset (list (list pixel)) (list (list (list value))) Z;
}.

(** The array and data-set cells of the notebook, from the three loaded
    pairs [(images, labels)] of [load_images]; [None] stands for a Python
    exception that stops the notebook. *)
Definition make_datasets
    (synth real real_final : list (list (list pixel)) * list Z) (w : process)
  : option datasets :=
  let '(synth_images, synth_labels) := synth in
  let '(real_images, real_labels) := real in
  let '(real_final_images, real_final_labels) := real_final in
  (* binary classification *)
  let synth_labels := binarize synth_labels in
  let real_labels := binarize real_labels in
  let real_final_labels := binarize real_final_labels in
  (* train/test split *)
  '(synth_train_img, synth_test_img, synth_train_label, synth_test_label) ←
    (train_test_split seed_rng random_interval
       synth_images synth_labels (20 # 100) 42 w).1;
  '(real_train_img, real_test_img, real_train_label, real_test_label) ←
    (train_test_split seed_rng random_interval
       real_images real_labels (20 # 100) 42 w).1;
  (* filter bad images *)
  good_images ← good_synth_images to_float score synth_images synth_labels;
  good_labels ← good_synth_labels to_float score synth_images synth_labels;
  Some {|
    synth_train_dataset := mri_dataset to_float synth_train_img synth_train_label;
    synth_test_dataset := mri_dataset to_float synth_test_img synth_test_label;
    real_train_dataset := mri_dataset to_float real_train_img real_train_label;
    real_test_dataset := mri_dataset to_float real_test_img real_test_label;
    real_final_dataset := mri_dataset to_float real_final_images real_labels;
    adv_val_dataset :=
      mri_dataset to_float (all_images synth_images real_images)
                  (all_labels synth_images real_images);
    synth_dataset := mri_dataset to_float synth_images synth_labels;
    real_dataset := mri_dataset to_float real_images real_labels;
    good_synth_dataset := mri_dataset to_float good_images good_labels;
  |}.

(** A data set whose image and label arrays have the same length. *)
Definition paired
    (d : MRIDataset (list (list pixel)) (list (list (list value))) Z) : Prop :=
  length (images d) = length (labels d).

(** *** Pairing of images and labels *)

(** Whenever the notebook gets through its data-set cells, every data set
    but [real_final_dataset] pairs an image array with a label array of the
    same length; [real_final_dataset] pairs the hold-out images with the
    labels of the real training set. *)
Lemma make_datasets_paired
    (synth real real_final : list (list (list pixel)) * list Z) (w : process)
    (ds : datasets) :
  make_datasets synth real real_final w = Some ds →
  paired (synth_train_dataset ds) ∧ paired (synth_test_dataset ds) ∧
  paired (real_train_dataset ds) ∧ paired (real_test_dataset ds) ∧
  paired (adv_val_dataset ds) ∧ paired (synth_dataset ds) ∧
  paired (real_dataset ds) ∧ paired (good_synth_dataset ds) ∧
  images (real_final_dataset ds) = real_final.1 ∧
  labels (real_final_dataset ds) = binarize real.2 ∧
  length (labels (real_final_dataset ds)) = length real.1.
Proof.
  destruct synth as [si sl], real as [ri rl], real_final as [fi fl].
  unfold make_datasets. intros Hmk.
  destruct (train_test_split seed_rng random_interval si (binarize sl)
              (20 # 100) 42 w).1 as [[[[a b] c] d]|] eqn:Hs; [|done].
  destruct (train_test_split seed_rng random_interval ri (binarize rl)
              (20 # 100) 42 w).1 as [[[[a' b'] c'] d']|] eqn:Hr; [|done].
  simpl in Hmk.
  destruct (good_synth_images to_float score si (binarize sl)) as [gi|] eqn:Hgi; [|done].
  destruct (good_synth_labels to_float score si (binarize sl)) as [gl|] eqn:Hgl; [|done].
  simpl in Hmk. injection Hmk as <-.
  apply train_test_split_inv in Hs
    as (Hls & tr & te & _ & H1 & H2 & H3 & H4 & _).
  apply train_test_split_inv in Hr
    as (Hlr & tr' & te' & _ & H1' & H2' & H3' & H4' & _).
  apply take_rows_length in H1, H2, H3, H4, H1', H2', H3', H4', Hgi, Hgl.
  unfold paired. simpl.
  rewrite all_labels_eq. unfold all_images, np_concatenate.
  rewrite !length_app, !length_replicate.
  repeat split; congruence.
Qed.

End Datasets.

(** *** A small run

    Images of one row of two bytes; three synthetic samples, two real
    training samples and one real hold-out sample.  The score of a
    transformed image is its first entry. *)

Definition byte_to_float (p : Z) : Q := (p # 255)%Q.

Definition toy_score (t : list (list (list Q))) : Q :=
  match t with
  | ((x :: _) :: _) :: _ => x
  | _ => 0%Q
  end.

Definition toy_synth : list (list (list Z)) * list Z :=
  ([[[0; 255]]; [[51; 0]]; [[102; 3]]], [0; 3; 1]).

Definition toy_real : list (list (list Z)) * list Z :=
  ([[[255; 1]]; [[204; 2]]], [0; 2]).

Definition toy_real_final : list (list (list Z)) * list Z :=
  ([[[153; 9]]], [1]).

Example argsort_top_2 :
  np_argsort [3 # 10; 9 # 10; 1 # 10; 5 # 10]%Q = [2; 0; 3; 1]%nat ∧
  last_entries 2 (np_argsort [3 # 10; 9 # 10; 1 # 10; 5 # 10]%Q) = [3; 1]%nat ∧
  last_entries 6 (np_argsort [3 # 10; 9 # 10; 1 # 10; 5 # 10]%Q)
    = [2; 0; 3; 1]%nat.
Proof. repeat split; reflexivity. Qed.

Example toy_scores :
  scores byte_to_float toy_score toy_synth.1 (binarize toy_synth.2)
  = [0 # 255; 51 # 255; 102 # 255]%Q.
Proof. reflexivity. Qed.

(** C4: the claim fails on the code.  With two real training samples and
    one real hold-out sample the notebook builds [real_final_dataset] from
    the one hold-out image and the two labels of the training set
    ([real_labels]), not from the one hold-out label
    ([real_final_labels]): image and label array differ in length, while
    every other data set it builds is paired. *)
Theorem real_final_dataset_mismatch :
  ∃ ds,
    make_datasets byte_to_float lcg_seed lcg_interval toy_score
      toy_synth toy_real toy_real_final lcg_process = Some ds ∧
    images (real_final_dataset ds) = [[[153; 9]]] ∧
    labels (real_final_dataset ds) = [0; 1] ∧
    binarize toy_real.2 = [0; 1] ∧ binarize toy_real_final.2 = [1] ∧
    length (images (real_final_dataset ds)) = 1%nat ∧
    length (labels (real_final_dataset ds)) = 2%nat ∧
    ¬ paired (real_final_dataset ds) ∧
    paired (synth_train_dataset ds) ∧ paired (synth_test_dataset ds) ∧
    paired (real_train_dataset ds) ∧ paired (real_test_dataset ds) ∧
    paired (adv_val_dataset ds) ∧ paired (synth_dataset ds) ∧
    paired (real_dataset ds) ∧ paired (good_synth_dataset ds).
Proof.
  destruct (make_datasets byte_to_float lcg_seed lcg_interval toy_score
              toy_synth toy_real toy_real_final lcg_process)
    as [ds|] eqn:Hmk; [|vm_compute in Hmk; discriminate].
  exists ds. split; [done|].
  apply make_datasets_paired in Hmk
    as (P1 & P2 & P3 & P4 & P5 & P6 & P7 & P8 & Hi & Hl & _).
  unfold paired. rewrite Hi, Hl.
  repeat split; done.
Qed.

Lemma all_labels_spec_witness :
  (all_labels toy_synth.1 toy_real.1 !! 3%nat = Some 0 ↔ (3 < 3)%nat) ∧
  (all_labels toy_synth.1 toy_real.1 !! 3%nat = Some 1 ↔ (3 ≤ 3)%nat) ∧
  ((3 < 3)%nat →
     all_images toy_synth.1 toy_real.1 !! 3%nat = toy_synth.1 !! 3%nat) ∧
  ((3 ≤ 3)%nat →
     all_images toy_synth.1 toy_real.1 !! 3%nat = toy_real.1 !! (3 - 3)%nat).
Proof.
  apply (proj2 (proj2 (all_labels_spec toy_synth.1 toy_real.1)) 3%nat).
  vm_compute. lia.
Defined.

Lemma filter_keeps_top_scores_witness :
  ∃ good_images good_labels,
    good_synth_images byte_to_float toy_score toy_synth.1 (binarize toy_synth.2)
      = Some good_images ∧
    good_synth_labels byte_to_float toy_score toy_synth.1 (binarize toy_synth.2)
      = Some good_labels ∧
    length good_images = (n_keep `min` 3)%nat ∧
    length good_labels = (n_keep `min` 3)%nat.
Proof.
  destruct (filter_keeps_top_scores byte_to_float toy_score
              toy_synth.1 (binarize toy_synth.2) eq_refl)
    as (good_images & good_labels & H1 & H2 & H3 & H4 & _).
  exists good_images, good_labels. done.
Defined.

End Notebook.

(** ** Label distributions (cells "print labels distribution") *)

Module Distribution.
Import Labels.

(** [Counter(labels)]: a dictionary from each label that occurs to the
    number of its occurrences, filled element by element with
    [counter[x] = counter.get(x, 0) + 1]. *)
Definition Counter (labels : list Z) : gmap Z nat :=
  foldl (λ counter x, <[x := S (default 0%nat (counter !! x))]> counter) ∅ labels.

(** [counter[x]]: the count of [x], 0 for a label that does not occur. *)
Definition count_of (counter : gmap Z nat) (x : Z) : nat :=
  default 0%nat (counter !! x).

(** The number of entries of an array that satisfy a test. *)
Definition occurrences (P : Z → bool) (labels : list Z) : nat :=
  length (filter (λ x, P x = true) labels).

Lemma Counter_foldl_lookup (labels : list Z) (counter : gmap Z nat) (x : Z) :
  foldl (λ counter x, <[x := S (default 0%nat (counter !! x))]> counter)
    counter labels !! x
  = match occurrences (Z.eqb x) labels with
    | O => counter !! x
    | S n => Some (default 0%nat (counter !! x) + S n)%nat
    end.
Proof.
  revert counter. unfold occurrences.
  induction labels as [|y labels IH]; intros counter; [done|].
  simpl. rewrite IH, filter_cons. clear IH.
  destruct (Z.eqb_spec x y) as [<-|Hne].
  - rewrite decide_True by done. rewrite lookup_insert_eq. simpl.
    destruct (length _); f_equal; lia.
  - rewrite decide_False by done. by rewrite lookup_insert_ne.
Qed.

Lemma Counter_lookup (labels : list Z) (x : Z) :
  Counter labels !! x
  = match occurrences (Z.eqb x) labels with
    | O => None
    | S n => Some (S n)
    end.
Proof.
  unfold Counter. rewrite Counter_foldl_lookup, lookup_empty.
  by destruct (occurrences _ _).
Qed.

Lemma count_of_Counter (labels : list Z) (x : Z) :
  count_of (Counter labels) x = occurrences (Z.eqb x) labels.
Proof.
  unfold count_of. rewrite Counter_lookup. by destruct (occurrences _ _).
Qed.

Lemma occurrences_binarize (b : Z) (P : Z → bool) (labels : list Z) :
  (∀ l, Z.eqb b (clip l 0 1) = P l) →
  occurrences (Z.eqb b) (binarize labels) = occurrences P labels.
Proof.
  intros HP. unfold occurrences, binarize, np_clip.
  induction labels as [|l labels IH]; [done|].
  rewrite fmap_cons, !filter_cons. simpl. rewrite HP.
  destruct (decide (P l = true)); simpl; by rewrite IH.
Qed.

Lemma occurrences_split (labels : list Z) :
  (occurrences (λ l, l <=? 0)%Z labels + occurrences (λ l, 1 <=? l)%Z labels
   = length labels)%nat.
Proof.
  unfold occurrences. induction labels as [|l labels IH]; [done|].
  rewrite !filter_cons. simpl.
  destruct (Z.leb_spec l 0), (Z.leb_spec 1 l); try lia;
    repeat (rewrite decide_True by done || rewrite decide_False by done);
    simpl; lia.
Qed.

(** Binarising twice is binarising once: re-running the cell "binary
    classification" leaves the labels as they are. *)
Theorem binarize_idempotent (labels : list Z) :
  binarize (binarize labels) = binarize labels.
Proof.
  unfold binarize, np_clip. rewrite <- list_fmap_compose.
  apply list_fmap_ext. intros _ l _. simpl.
  unfold clip. repeat case_match; lia.
Qed.

(** The label distribution printed after the binarisation has no class but
    0 and 1; class 1 counts the labels that were at least 1 (any severity),
    class 0 the labels that were at most 0, and the two counts add up to the
    number of labels. *)
Theorem Counter_binarize (labels : list Z) :
  (∀ x, is_Some (Counter (binarize labels) !! x) → x = 0 ∨ x = 1) ∧
  count_of (Counter (binarize labels)) 1 = occurrences (λ l, 1 <=? l) labels ∧
  count_of (Counter (binarize labels)) 0 = occurrences (λ l, l <=? 0) labels ∧
  (count_of (Counter (binarize labels)) 0
   + count_of (Counter (binarize labels)) 1 = length labels)%nat.
Proof.
  assert (H1 : count_of (Counter (binarize labels)) 1
               = occurrences (λ l, 1 <=? l) labels).
  { rewrite count_of_Counter. apply occurrences_binarize.
    intros l. unfold clip.
    destruct (Z.ltb_spec l 0), (Z.ltb_spec 1 l), (Z.leb_spec 1 l);
      try lia; by apply Z.eqb_neq || apply Z.eqb_eq; lia. }
  assert (H0 : count_of (Counter (binarize labels)) 0
               = occurrences (λ l, l <=? 0) labels).
  { rewrite count_of_Counter. apply occurrences_binarize.
    intros l. unfold clip.
    destruct (Z.ltb_spec l 0), (Z.ltb_spec 1 l), (Z.leb_spec l 0);
      try lia; by apply Z.eqb_neq || apply Z.eqb_eq; lia. }
  split; [|split; [done|split; [done|]]].
  - intros x [c Hc]. rewrite Counter_lookup in Hc.
    destruct (occurrences (Z.eqb x) (binarize labels)) eqn:Hocc; [done|].
    unfold occurrences in Hocc.
    destruct (filter (λ y, (x =? y) = true) (binarize labels)) as [|y ys] eqn:Hf;
      [done|].
    assert (Hy : y ∈ filter (λ y, (x =? y) = true) (binarize labels))
      by (rewrite Hf; left).
    apply list_elem_of_filter in Hy as [Hxy Hin].
    apply Z.eqb_eq in Hxy as ->.
    unfold binarize, np_clip in Hin. apply list_elem_of_fmap in Hin as (l & -> & _).
    apply clip_binary.
  - rewrite H0, H1. apply occurrences_split.
Qed.

(** The four severity classes, three samples of each but one. *)
Example Counter_classes :
  Counter [0; 2; 1; 0; 3; 1; 0] = {[0 := 3%nat; 1 := 2%nat; 2 := 1%nat; 3 := 1%nat]} ∧
  Counter (binarize [0; 2; 1; 0; 3; 1; 0]) = {[0 := 3%nat; 1 := 4%nat]}.
Proof. split; by vm_compute. Qed.

End Distribution.

(** ** More on the train/test split (cell "train/test split") *)

Module SplitPairs.
Import Split.

Lemma take_rows_omap {A} (X rows : list A) (indices : list nat) :
  take_rows X indices = Some rows → rows = omap (λ i, X !! i) indices.
Proof.
  intros Hrows. apply mapM_Some_1 in Hrows.
  induction Hrows as [|i x indices rows Hi _ IH]; [done|].
  simpl. rewrite Hi. simpl. f_equal. exact IH.
Qed.

Lemma take_rows_all {A} (X : list A) :
  take_rows X (seq 0 (length X)) = Some X.
Proof.
  apply mapM_Some_2, Forall2_same_length_lookup_2.
  - apply length_seq.
  - intros i j x Hj Hx. apply lookup_seq in Hj as [-> _]. done.
Qed.

(** Selecting the rows at a permutation of all positions rearranges the
    array. *)
Lemma take_rows_Permutation {A} (X rows : list A) (indices : list nat) :
  indices ≡ₚ seq 0 (length X) → take_rows X indices = Some rows → rows ≡ₚ X.
Proof.
  intros Hperm Hrows. rewrite (take_rows_omap _ _ _ Hrows), Hperm.
  by rewrite <- (take_rows_omap _ _ _ (take_rows_all X)).
Qed.

Lemma take_rows_zip {A B} (X a : list A) (y b : list B) (indices : list nat) :
  take_rows X indices = Some a → take_rows y indices = Some b →
  take_rows (zip X y) indices = Some (zip a b).
Proof.
  intros HX Hy. apply mapM_Some_1 in HX. apply mapM_Some_1 in Hy.
  apply mapM_Some_2. revert b Hy.
  induction HX as [|i x indices a Hi _ IH]; intros b Hy.
  - apply Forall2_nil_inv_l in Hy as ->. constructor.
  - apply Forall2_cons_inv_l in Hy as (x' & b' & Hi' & Hy & ->).
    simpl. constructor; [|by apply IH].
    by rewrite lookup_zip_with, Hi, Hi'.
Qed.

Lemma take_rows_app {A} (X r1 r2 : list A) (i1 i2 : list nat) :
  take_rows X i1 = Some r1 → take_rows X i2 = Some r2 →
  take_rows X (i1 ++ i2) = Some (r1 ++ r2).
Proof.
  intros H1 H2. apply mapM_Some_1 in H1. apply mapM_Some_1 in H2.
  apply mapM_Some_2. by apply Forall2_app.
Qed.

Section Generator.
Context {rng : Type}.
Variable seed_rng : Z → rng.
Variable random_interval : rng → nat → nat * rng.

(** The test indices followed by the train indices are one permutation of
    all positions. *)
Lemma shuffle_split_Permutation (n : nat) (test_size : Q) (random_state : Z)
    (train test : list nat) :
  shuffle_split seed_rng random_interval n test_size random_state
    = Some (train, test) →
  test ++ train ≡ₚ seq 0 n.
Proof.
  unfold shuffle_split. intros Hsplit.
  destruct (validate_shuffle_split n test_size) as [[n_train n_test]|] eqn:Hv;
    [|done].
  simpl in Hsplit. injection Hsplit as <- <-.
  pose proof (permutation_Permutation random_interval (seed_rng random_state) n)
    as Hperm.
  assert (Hlen : length (permutation random_interval (seed_rng random_state) n).1
                 = n) by (by rewrite Hperm, length_seq).
  assert (Hn : (n_train = n - n_test)%nat).
  { unfold validate_shuffle_split in Hv. destruct (_ && _); [|done].
    destruct (_ =? _)%nat; [done|]. by injection Hv as <- <-. }
  rewrite (take_ge (drop _ _)) by (rewrite length_drop; lia).
  by rewrite take_drop.
Qed.

(** The split keeps every image with its label and neither loses nor
    repeats a sample: the (image, label) pairs of the train part followed by
    those of the test part are a rearrangement of the pairs of the input. *)
Theorem train_test_split_pairs {A B} (X : list A) (y : list B)
    (test_size : Q) (random_state : Z) (w : process)
    (X_train X_test : list A) (y_train y_test : list B) :
  (train_test_split seed_rng random_interval X y test_size random_state w).1
    = Some (X_train, X_test, y_train, y_test) →
  zip X_train y_train ++ zip X_test y_test ≡ₚ zip X y ∧
  length X_train = length y_train ∧ length X_test = length y_test ∧
  (length X_train + length X_test = length X)%nat.
Proof.
  intros Hsplit.
  apply train_test_split_inv in Hsplit
    as (Hlen & train & test & Hs & H1 & H2 & H3 & H4 & _).
  apply shuffle_split_Permutation in Hs.
  pose proof (take_rows_zip _ _ _ _ _ H1 H3) as Htrain.
  pose proof (take_rows_zip _ _ _ _ _ H2 H4) as Htest.
  pose proof (take_rows_app _ _ _ _ _ Htest Htrain) as Hall.
  apply take_rows_Permutation in Hall;
    [|by rewrite length_zip_with, <- Hlen, Nat.min_id].
  apply take_rows_length in H1, H2, H3, H4.
  split; [by rewrite (comm (++))|].
  split; [congruence|]. split; [congruence|].
  rewrite H1, H2, Nat.add_comm, <- length_app, Hs. by rewrite length_seq.
Qed.

(** The split cell raises an exception exactly when the image and label
    arrays differ in length or hold fewer than two samples. *)
Theorem train_test_split_succeeds {A B} (X : list A) (y : list B)
    (random_state : Z) (w : process) :
  is_Some (train_test_split seed_rng random_interval
             X y (20 # 100) random_state w).1
  ↔ length X = length y ∧ (2 ≤ length X)%nat.
Proof.
  split.
  - intros [[[[a b] c] d] Hsplit].
    apply train_test_split_inv in Hsplit as (Hlen & train & test & Hs & _).
    split; [done|].
    unfold shuffle_split in Hs. rewrite validate_shuffle_split_fifth in Hs.
    destruct (Nat.ltb_spec (length X) 2); [done|lia].
  - intros [Hlen Hn].
    destruct (shuffle_split_fifth seed_rng random_interval (length X)
                random_state Hn) as (train & test & Hs & _).
    destruct (train_test_split_Some seed_rng random_interval X y (20 # 100)
                random_state w train test Hlen Hs)
      as (a & b & c & d & Hr & _).
    by rewrite Hr.
Qed.

End Generator.

Lemma train_test_split_pairs_witness :
  zip [13; 14; 10; 12] [0; 1; 0; 1] ++ zip [11] [1]
    ≡ₚ zip [10; 11; 12; 13; 14] [0; 1; 1; 0; 1] ∧
  length [13; 14; 10; 12] = length [0; 1; 0; 1] ∧
  length [11] = length [1] ∧
  (length [13; 14; 10; 12] + length [11] = length [10; 11; 12; 13; 14])%nat.
Proof.
  apply (train_test_split_pairs lcg_seed lcg_interval
           [10; 11; 12; 13; 14] [0; 1; 1; 0; 1] (20 # 100) 42 lcg_process).
  reflexivity.
Defined.

End SplitPairs.

(** ** More on the data loaders (cell "make dataloaders") *)

Module Loader.
Import Split SplitPairs Dataset.

(** The sizes of the batches the sampler cuts: no batch is empty or larger
    than [batch_size], every batch but the last is full, and there are
    ceil(n / batch_size) of them. *)
Lemma batch_sampler_sizes (batch_size : nat) (sampler batch : list nat) :
  (0 < batch_size)%nat → (length batch < batch_size)%nat →
  let sizes := length <$> batch_sampler batch_size sampler batch in
  Forall (λ n, 0 < n ≤ batch_size)%nat sizes ∧
  (∀ k n, sizes !! k = Some n → (S k < length sizes)%nat → n = batch_size) ∧
  (length batch + length sampler ≤ length sizes * batch_size)%nat ∧
  (length sizes * batch_size < length batch + length sampler + batch_size)%nat.
Proof.
  intros Hb. revert batch.
  induction sampler as [|idx sampler IH]; intros batch Hbatch;
    cbn [batch_sampler].
  - destruct batch as [|i batch]; simpl in *.
    + split; [constructor|]. split; [intros ? ? [=]|]. lia.
    + split; [apply Forall_singleton; lia|].
      split; [intros k n _ Hk; lia|]. lia.
  - rewrite length_app. cbn [length].
    destruct (Nat.eqb_spec (length batch + 1) batch_size) as [Hfull|Hnot].
    + destruct (IH [] Hb) as (Hall & Hlast & Hlo & Hhi).
      rewrite fmap_cons, length_app. cbn [length] in *.
      split; [apply Forall_cons; split; [lia|done]|]. split; [|lia].
      intros [|k] n Hk Hlen; simpl in Hk; [injection Hk as <-; lia|].
      apply (Hlast k n Hk). lia.
    + destruct (IH (batch ++ [idx])) as (Hall & Hlast & Hlo & Hhi);
        [rewrite length_app; simpl; lia|].
      rewrite length_app in Hlo, Hhi. cbn [length] in *.
      split; [done|]. split; [done|]. lia.
Qed.

Section Sequential.
Context {image tensor label : Type}.

Lemma fetch_length (d : MRIDataset image tensor label) (batch : list nat) s :
  fetch d batch = Ok s → length s = length batch.
Proof.
  revert s. induction batch as [|i batch IH]; intros s; simpl.
  - by intros [= <-].
  - destruct (get d i); [|done]. destruct (fetch d batch); [|done].
    intros [= <-]. simpl. f_equal. by apply IH.
Qed.

Lemma fetch_all_lengths (d : MRIDataset image tensor label)
    (batches : list (list nat)) fetched :
  fetch_all d batches = Ok fetched → length <$> fetched = length <$> batches.
Proof.
  revert fetched. induction batches as [|batch batches IH]; intros fetched; simpl.
  - by intros [= <-].
  - destruct (fetch d batch) as [s|] eqn:Hs; [|done].
    destruct (fetch_all d batches); [|done].
    intros [= <-]. rewrite !fmap_cons. f_equal; [by eapply fetch_length|].
    by apply IH.
Qed.

Lemma fetch_all_Ok_concat (d : MRIDataset image tensor label)
    (batches : list (list nat)) fetched :
  fetch_all d batches = Ok fetched → fetch d (concat batches) = Ok (concat fetched).
Proof.
  revert fetched. induction batches as [|batch batches IH]; intros fetched; simpl.
  - by intros [= <-].
  - destruct (fetch d batch) as [s|] eqn:Hs; [|done].
    destruct (fetch_all d batches) as [rest|]; [|done].
    intros [= <-]. specialize (IH rest eq_refl). simpl.
    clear -Hs IH. revert s Hs. induction batch as [|i batch IHb]; intros s; simpl.
    + by intros [= <-].
    + destruct (get d i); [|done]. destruct (fetch d batch); [|done].
      intros [= <-]. by rewrite (IHb _ eq_refl).
Qed.

Lemma fetch_Ok_get (d : MRIDataset image tensor label) (batch : list nat) s i :
  fetch d batch = Ok s → i ∈ batch → get d i ≠ IndexError.
Proof.
  revert s. induction batch as [|j batch IH]; intros s; simpl.
  - intros _ Hi. by apply elem_of_nil in Hi.
  - destruct (get d j) eqn:Hj; [|done]. destruct (fetch d batch); [|done].
    intros _ [->|Hi]%elem_of_cons; [by rewrite Hj|]. by eapply IH.
Qed.

Lemma samples_lookup_get (d : MRIDataset image tensor label) (i : nat) s :
  samples d !! i = Some s → get d i = Ok s.
Proof.
  unfold samples, get. rewrite lookup_zip_with.
  destruct (images d !! i); [|done]. simpl.
  destruct (labels d !! i); [|done]. simpl. by intros [= <-].
Qed.

Lemma fetch_take_rows (d : MRIDataset image tensor label) (batch : list nat) s :
  take_rows (samples d) batch = Some s → fetch d batch = Ok s.
Proof.
  intros Hs. apply mapM_Some_1 in Hs.
  induction Hs as [|i x batch s Hi _ IH]; [done|].
  simpl. by rewrite (samples_lookup_get _ _ _ Hi), IH.
Qed.

(** One pass over a sequential loader: the samples of the data set in
    order, in batches none of which is empty or larger than [batch_size],
    all but the last full, ceil(len / batch_size) batches in all.  With
    [batch_size=1], as for the hold-out loader, that is one batch per
    sample. *)
Theorem DataLoader_batches (d : MRIDataset image tensor label) (batch_size : nat) :
  (length (images d) ≤ length (labels d))%nat → (0 < batch_size)%nat →
  ∃ batches,
    DataLoader d batch_size = Ok batches ∧
    concat batches = samples d ∧
    Forall (λ batch, 0 < length batch ≤ batch_size)%nat batches ∧
    (∀ k batch, batches !! k = Some batch → (S k < length batches)%nat →
                length batch = batch_size) ∧
    (len d ≤ length batches * batch_size)%nat ∧
    (length batches * batch_size < len d + batch_size)%nat ∧
    (batch_size = 1%nat → length batches = len d).
Proof.
  intros Hle Hb.
  destruct (DataLoader_samples d batch_size Hle) as (batches & Hload & Hcat).
  exists batches. split; [done|]. split; [done|].
  unfold DataLoader in Hload. apply fetch_all_lengths in Hload.
  destruct (batch_sampler_sizes batch_size (seq 0 (len d)) [] Hb)
    as (Hall & Hlast & Hlo & Hhi); [simpl; lia|].
  rewrite <- Hload in Hall, Hlast, Hlo, Hhi.
  rewrite length_fmap, length_seq in Hlo, Hhi. simpl in Hlo, Hhi.
  rewrite length_fmap in Hlast.
  split; [by apply Forall_fmap in Hall|].
  split; [|split; [done|split; [done|intros ->; lia]]].
  intros k batch Hk Hlen. apply (Hlast k); [|done].
  by rewrite list_lookup_fmap, Hk.
Qed.

(** A data set with fewer labels than images cannot be loaded: the pass
    stops with an [IndexError]. *)
Lemma DataLoader_IndexError (d : MRIDataset image tensor label) (batch_size : nat) :
  (length (labels d) < length (images d))%nat →
  DataLoader d batch_size = IndexError.
Proof.
  intros Hlt. destruct (DataLoader d batch_size) as [batches|] eqn:Hload; [|done].
  unfold DataLoader in Hload. apply fetch_all_Ok_concat in Hload.
  rewrite batch_sampler_concat in Hload. simpl in Hload.
  exfalso. apply (fetch_Ok_get _ _ _ (length (labels d)) Hload).
  - apply elem_of_seq. unfold len. lia.
  - unfold get. rewrite (lookup_ge_None_2 (labels d)) by done.
    by destruct (images d !! _).
Qed.

End Sequential.

Section Shuffled.
Context {image tensor label rng : Type}.
Variable random_interval : rng → nat → nat * rng.

(** [DataLoader(dataset, batch_size=..., shuffle=True)], iterated once: the
    random sampler is [torch.randperm(len(dataset), generator)], cut into
    batches; [g] is the state of the generator the sampler draws from. *)
Definition DataLoader_shuffle (d : MRIDataset image tensor label)
    (batch_size : nat) (g : rng)
  : result (list (list (tensor * label))) :=
  fetch_all d (batch_sampler batch_size (randperm random_interval g (len d)).1 []).

(** One pass over a shuffling loader visits every sample of the data set
    exactly once: the batches, put end to end, are a rearrangement of the
    samples. *)
Theorem DataLoader_shuffle_epoch (d : MRIDataset image tensor label)
    (batch_size : nat) (g : rng) :
  (length (images d) ≤ length (labels d))%nat →
  ∃ batches,
    DataLoader_shuffle d batch_size g = Ok batches ∧
    concat batches ≡ₚ samples d.
Proof.
  intros Hle. unfold DataLoader_shuffle.
  pose proof (randperm_Permutation random_interval g (len d)) as Hperm.
  destruct (randperm random_interval g (len d)) as [perm g']. simpl in *.
  rewrite <- (length_samples d Hle) in Hperm.
  destruct (take_rows_Some (samples d) perm) as (s & Hs & _).
  { apply Forall_forall. intros i Hi. rewrite Hperm in Hi.
    apply elem_of_seq in Hi. lia. }
  destruct (fetch_all_concat d (batch_sampler batch_size perm []) s)
    as (batches & Hload & Hcat).
  { rewrite batch_sampler_concat. simpl. by apply fetch_take_rows. }
  exists batches. split; [done|].
  rewrite Hcat. by eapply take_rows_Permutation.
Qed.

End Shuffled.

Example toy_batches :
  DataLoader toy_dataset 2 = Ok [[(20, 0); (40, 1)]; [(60, 1)]] ∧
  DataLoader toy_dataset 1 = Ok [[(20, 0)]; [(40, 1)]; [(60, 1)]] ∧
  DataLoader_shuffle lcg_interval toy_dataset 2 (lcg_seed 3)
    = Ok [[(40, 1); (60, 1)]; [(20, 0)]].
Proof. repeat split; reflexivity. Qed.

Lemma DataLoader_batches_witness :
  ∃ batches,
    DataLoader toy_dataset 2 = Ok batches ∧
    concat batches = samples toy_dataset ∧
    Forall (λ batch, 0 < length batch ≤ 2)%nat batches ∧
    (∀ k batch, batches !! k = Some batch → (S k < length batches)%nat →
                length batch = 2%nat) ∧
    (len toy_dataset ≤ length batches * 2)%nat ∧
    (length batches * 2 < len toy_dataset + 2)%nat ∧
    (2%nat = 1%nat → length batches = len toy_dataset).
Proof.
  apply (DataLoader_batches toy_dataset 2); vm_compute; lia.
Defined.

Lemma DataLoader_shuffle_epoch_witness :
  ∃ batches,
    DataLoader_shuffle lcg_interval toy_dataset 2 (lcg_seed 3) = Ok batches ∧
    concat batches ≡ₚ samples toy_dataset.
Proof.
  apply (DataLoader_shuffle_epoch lcg_interval toy_dataset 2 (lcg_seed 3)).
  vm_compute. lia.
Defined.

End Loader.

(** ** More on the scores and the filter (cells "filter bad images") *)

Module Scores.
Import Labels Transform Split SplitPairs Dataset Notebook.

(** [np.min(a)] and [np.max(a)] on a one-dimensional array: a reduction
    from the first entry on; an empty array is a [ValueError]. *)
Definition np_min (a : list Q) : option Q :=
  match a with
  | [] => None
  | x :: a' => Some (foldl (λ m y, if Qle_bool m y then m else y) x a')
  end.

Definition np_max (a : list Q) : option Q :=
  match a with
  | [] => None
  | x :: a' => Some (foldl (λ m y, if Qle_bool y m then m else y) x a')
  end.

Lemma foldl_min_spec (a : list Q) (x : Q) :
  let lo := foldl (λ m y, if Qle_bool m y then m else y) x a in
  lo ∈ x :: a ∧ ∀ y, y ∈ x :: a → (lo <= y)%Q.
Proof.
  revert x. induction a as [|z a IH]; intros x; simpl.
  - split; [left|]. intros y ->%list_elem_of_singleton. apply Qle_refl.
  - destruct (Qle_bool x z) eqn:Hxz.
    + apply Qle_bool_iff in Hxz. destruct (IH x) as [Hin Hle]. split.
      * apply elem_of_cons in Hin as [->|Hin]; [left|right; by right].
      * intros y [->|[->|Hy]%elem_of_cons]%elem_of_cons.
        -- apply Hle. left.
        -- eapply Qle_trans; [apply Hle; left|done].
        -- apply Hle. by right.
    + assert (Hzx : (z <= x)%Q).
      { apply Qlt_le_weak, Qnot_le_lt. intros H%Qle_bool_iff. congruence. }
      destruct (IH z) as [Hin Hle]. split.
      * right. done.
      * intros y [->|Hy]%elem_of_cons.
        -- eapply Qle_trans; [apply Hle; left|done].
        -- by apply Hle.
Qed.

Lemma foldl_max_spec (a : list Q) (x : Q) :
  let hi := foldl (λ m y, if Qle_bool y m then m else y) x a in
  hi ∈ x :: a ∧ ∀ y, y ∈ x :: a → (y <= hi)%Q.
Proof.
  revert x. induction a as [|z a IH]; intros x; simpl.
  - split; [left|]. intros y ->%list_elem_of_singleton. apply Qle_refl.
  - destruct (Qle_bool z x) eqn:Hzx.
    + apply Qle_bool_iff in Hzx. destruct (IH x) as [Hin Hle]. split.
      * apply elem_of_cons in Hin as [->|Hin]; [left|right; by right].
      * intros y [->|[->|Hy]%elem_of_cons]%elem_of_cons.
        -- apply Hle. left.
        -- eapply Qle_trans; [done|apply Hle; left].
        -- apply Hle. by right.
    + assert (Hxz : (x <= z)%Q).
      { apply Qlt_le_weak, Qnot_le_lt. intros H%Qle_bool_iff. congruence. }
      destruct (IH z) as [Hin Hle]. split.
      * right. done.
      * intros y [->|Hy]%elem_of_cons.
        -- eapply Qle_trans; [done|apply Hle; left].
        -- by apply Hle.
Qed.

Lemma np_max_Some (a : list Q) :
  a ≠ [] → ∃ hi, np_max a = Some hi ∧ hi ∈ a ∧ ∀ y, y ∈ a → (y <= hi)%Q.
Proof.
  destruct a as [|x a]; [done|]. intros _. eexists. split; [reflexivity|].
  apply foldl_max_spec.
Qed.

(** The two extremes printed for the scores: of an empty array there is
    none (a [ValueError]); otherwise both are entries of the array and every
    entry lies between them. *)
Theorem np_min_max_bounds (a : list Q) :
  (a = [] → np_min a = None ∧ np_max a = None) ∧
  (a ≠ [] →
   ∃ lo hi, np_min a = Some lo ∧ np_max a = Some hi ∧ lo ∈ a ∧ hi ∈ a ∧
            ∀ y, y ∈ a → (lo <= y)%Q ∧ (y <= hi)%Q).
Proof.
  split; [by intros ->|].
  destruct a as [|x a]; [done|]. intros _.
  destruct (foldl_min_spec a x) as [Hlo Hle].
  destruct (foldl_max_spec a x) as [Hhi Hge].
  eexists _, _. split; [reflexivity|]. split; [reflexivity|].
  split; [done|]. split; [done|]. intros y Hy. split; [by apply Hle|by apply Hge].
Qed.

Lemma fmap_zip_with_fst {A B C D} (f : A → B → C) (g : C → D) (h : A → D)
    (l : list A) (k : list B) :
  (∀ x y, g (f x y) = h x) →
  g <$> zip_with f l k = h <$> take (length k) l.
Proof.
  intros Hgf. revert k. induction l as [|x l IH]; intros [|y k]; simpl; try done.
  by rewrite Hgf, IH.
Qed.

Section Filter.
Context {pixel value : Type}.
Variable to_float : pixel → value.
Variable score : list (list (list value)) → Q.

(** The loop over [synth_dataset] ends, and it scores the images in order:
    entry [i] of [scores] is the score of the transform of image [i], for
    every image that has a label. *)
Theorem scores_aligned (synth_images : list (list (list pixel)))
    (synth_labels : list Z) :
  scores to_float score synth_images synth_labels
  = (λ img, score (Transform.transform to_float img))
    <$> take (length synth_labels) synth_images.
Proof.
  unfold scores. rewrite iterate_complete. unfold samples. simpl.
  by apply fmap_zip_with_fst.
Qed.

Lemma filter_Some (synth_images : list (list (list pixel))) (synth_labels : list Z) :
  length synth_images = length synth_labels →
  ∃ good_images good_labels,
    good_synth_images to_float score synth_images synth_labels = Some good_images ∧
    good_synth_labels to_float score synth_images synth_labels = Some good_labels.
Proof.
  intros Hlen.
  destruct (np_argsort_sorted (scores to_float score synth_images synth_labels))
    as [Hsorted Hperm].
  rewrite length_scores in Hperm by done.
  destruct (top_scores _ _ n_keep _ Hperm Hsorted) as (_ & _ & Hin & _).
  assert (Hrange : Forall (λ i, (i < length synth_images)%nat)
                     (indices to_float score synth_images synth_labels))
    by (by apply Forall_forall).
  destruct (take_rows_Some synth_images _ Hrange) as (gi & Hgi & _).
  rewrite Hlen in Hrange.
  destruct (take_rows_Some synth_labels _ Hrange) as (gl & Hgl & _).
  by exists gi, gl.
Qed.

(** With at most 6000 synthetic images the filter drops nothing: the kept
    (image, label) pairs are a rearrangement, by ascending score, of all the
    pairs. *)
Theorem filter_keeps_all (synth_images : list (list (list pixel)))
    (synth_labels : list Z) :
  length synth_images = length synth_labels →
  (length synth_images ≤ n_keep)%nat →
  ∃ good_images good_labels,
    good_synth_images to_float score synth_images synth_labels = Some good_images ∧
    good_synth_labels to_float score synth_images synth_labels = Some good_labels ∧
    indices to_float score synth_images synth_labels
      = np_argsort (scores to_float score synth_images synth_labels) ∧
    zip good_images good_labels ≡ₚ zip synth_images synth_labels.
Proof.
  intros Hlen Hsmall.
  destruct (filter_Some synth_images synth_labels Hlen)
    as (gi & gl & Hgi & Hgl).
  exists gi, gl. split; [done|]. split; [done|].
  destruct (np_argsort_sorted (scores to_float score synth_images synth_labels))
    as [_ Hperm].
  rewrite length_scores in Hperm by done.
  assert (Hall : indices to_float score synth_images synth_labels
                 = np_argsort (scores to_float score synth_images synth_labels)).
  { unfold indices, last_entries.
    replace (length (np_argsort _) - n_keep)%nat with 0%nat; [done|].
    rewrite Hperm, length_seq. lia. }
  split; [done|].
  unfold good_synth_images, good_synth_labels in Hgi, Hgl.
  rewrite Hall in Hgi, Hgl.
  apply (take_rows_Permutation _ _ (np_argsort
           (scores to_float score synth_images synth_labels))).
  - by rewrite length_zip_with, <- Hlen, Nat.min_id.
  - by apply take_rows_zip.
Qed.

(** The image with the highest score is never filtered out: some kept
    position carries the maximum that the notebook prints. *)
Theorem best_score_kept (synth_images : list (list (list pixel)))
    (synth_labels : list Z) :
  length synth_images = length synth_labels → synth_images ≠ [] →
  let scs := scores to_float score synth_images synth_labels in
  ∃ hi i,
    np_max scs = Some hi ∧
    i ∈ indices to_float score synth_images synth_labels ∧
    (hi <= score_at scs i)%Q ∧
    ∀ j, (j < length synth_images)%nat → (score_at scs j <= hi)%Q.
Proof.
  intros Hlen Hne scs.
  assert (Hls : length scs = length synth_images) by (by apply length_scores).
  destruct (np_max_Some scs) as (hi & Hmax & Hin & Hle).
  { intros Hnil. rewrite Hnil in Hls. by destruct synth_images. }
  apply list_elem_of_lookup in Hin as [j Hj].
  destruct (np_argsort_sorted scs) as [Hsorted Hperm]. rewrite Hls in Hperm.
  destruct (top_scores scs _ n_keep _ Hperm Hsorted) as (Hk & _ & Hrange & Htop).
  change (last_entries n_keep (np_argsort scs))
    with (indices to_float score synth_images synth_labels) in Hk, Hrange, Htop.
  assert (Hbound : ∀ k, (k < length synth_images)%nat → (score_at scs k <= hi)%Q).
  { intros k Hk'. unfold score_at.
    destruct (lookup_lt_is_Some_2 scs k) as [x Hx]; [lia|].
    rewrite Hx. simpl. apply Hle. by eapply list_elem_of_lookup_2. }
  assert (Hjs : score_at scs j = hi) by (unfold score_at; by rewrite Hj).
  assert (Hjn : (j < length synth_images)%nat)
    by (apply lookup_lt_Some in Hj; lia).
  assert (∃ i, i ∈ indices to_float score synth_images synth_labels ∧
               (hi <= score_at scs i)%Q) as (i & Hi & Hhi).
  { destruct (decide (j ∈ indices to_float score synth_images synth_labels))
      as [Hjk|Hjk].
    - exists j. split; [done|]. rewrite Hjs. apply Qle_refl.
    - destruct (indices to_float score synth_images synth_labels)
        as [|i kept] eqn:Hkept.
      + simpl in Hk. assert (0 < n_keep)%nat by (unfold n_keep; lia).
        destruct synth_images; [done|]. simpl in Hk. lia.
      + exists i. split; [left|].
        assert (Hji : score_le scs j i) by (apply Htop; [left|done|done]).
        unfold score_le in Hji. apply Is_true_true, Qle_bool_iff in Hji.
        by rewrite Hjs in Hji. }
  by exists hi, i.
Qed.

End Filter.

Example toy_extremes :
  np_min [3 # 10; 9 # 10; 1 # 10; 5 # 10]%Q = Some (1 # 10)%Q ∧
  np_max [3 # 10; 9 # 10; 1 # 10; 5 # 10]%Q = Some (9 # 10)%Q ∧
  np_min [] = None.
Proof. repeat split; reflexivity. Qed.

Lemma np_min_max_bounds_witness :
  ∃ lo hi, np_min [3 # 10; 9 # 10; 1 # 10]%Q = Some lo ∧
           np_max [3 # 10; 9 # 10; 1 # 10]%Q = Some hi ∧
           lo ∈ [3 # 10; 9 # 10; 1 # 10]%Q ∧ hi ∈ [3 # 10; 9 # 10; 1 # 10]%Q ∧
           ∀ y, y ∈ [3 # 10; 9 # 10; 1 # 10]%Q → (lo <= y)%Q ∧ (y <= hi)%Q.
Proof.
  apply (proj2 (np_min_max_bounds [3 # 10; 9 # 10; 1 # 10]%Q)). discriminate.
Defined.

Lemma filter_keeps_all_witness :
  ∃ good_images good_labels,
    good_synth_images byte_to_float toy_score toy_synth.1 (binarize toy_synth.2)
      = Some good_images ∧
    good_synth_labels byte_to_float toy_score toy_synth.1 (binarize toy_synth.2)
      = Some good_labels ∧
    indices byte_to_float toy_score toy_synth.1 (binarize toy_synth.2)
      = np_argsort (scores byte_to_float toy_score toy_synth.1
                      (binarize toy_synth.2)) ∧
    zip good_images good_labels ≡ₚ zip toy_synth.1 (binarize toy_synth.2).
Proof.
  apply (filter_keeps_all byte_to_float toy_score
           toy_synth.1 (binarize toy_synth.2)); vm_compute; [reflexivity|lia].
Defined.

Lemma best_score_kept_witness :
  ∃ hi i,
    np_max (scores byte_to_float toy_score toy_synth.1 (binarize toy_synth.2))
      = Some hi ∧
    i ∈ indices byte_to_float toy_score toy_synth.1 (binarize toy_synth.2) ∧
    (hi <= score_at (scores byte_to_float toy_score toy_synth.1
                       (binarize toy_synth.2)) i)%Q ∧
    ∀ j, (j < length toy_synth.1)%nat →
         (score_at (scores byte_to_float toy_score toy_synth.1
                      (binarize toy_synth.2)) j <= hi)%Q.
Proof.
  apply (best_score_kept byte_to_float toy_score
           toy_synth.1 (binarize toy_synth.2)); [reflexivity|discriminate].
Defined.

End Scores.

(** ** The data sets of the notebook, taken together *)

Module Pipeline.
Import Labels Transform Split SplitPairs Dataset Loader Metrics Notebook Scores.

(** A label array that holds no label but 0 and 1. *)
Definition binary (labels : list Z) : Prop := Forall (λ l, l = 0 ∨ l = 1) labels.

Lemma binarize_binary (labels : list Z) : binary (binarize labels).
Proof.
  unfold binary, binarize, np_clip. apply Forall_fmap, Forall_true.
  intros l. apply clip_binary.
Qed.

Lemma take_rows_Forall {A} (P : A → Prop) (X rows : list A) (indices : list nat) :
  Forall P X → take_rows X indices = Some rows → Forall P rows.
Proof.
  intros HX Hrows. rewrite (take_rows_omap _ _ _ Hrows).
  apply Forall_forall. intros x (i & _ & Hi)%list_elem_of_omap.
  eapply Forall_forall; [exact HX|]. by eapply list_elem_of_lookup_2.
Qed.

Lemma fmap_zip_with_both {A B C D} (f : A → B → C) (g : C → D)
    (l : list A) (k : list B) :
  g <$> zip_with f l k = zip_with (λ x y, g (f x y)) l k.
Proof.
  revert k. induction l as [|x l IH]; intros [|y k]; simpl; try done.
  by rewrite IH.
Qed.

Section Datasets.
Context {pixel value rng : Type}.
Variable to_float : pixel → value.
Variable seed_rng : Z → rng.
Variable random_interval : rng → nat → nat * rng.
Variable score : list (list (list value)) → Q.

(** Every label of every data set the notebook builds is 0 or 1, a valid
    class for the two-class models and loss it is fed to. *)
Theorem datasets_labels_binary
    (synth real real_final : list (list (list pixel)) * list Z) (w : process)
    (ds : datasets) :
  make_datasets to_float seed_rng random_interval score synth real real_final w
    = Some ds →
  binary (labels (synth_train_dataset ds)) ∧
  binary (labels (synth_test_dataset ds)) ∧
  binary (labels (real_train_dataset ds)) ∧
  binary (labels (real_test_dataset ds)) ∧
  binary (labels (real_final_dataset ds)) ∧
  binary (labels (adv_val_dataset ds)) ∧
  binary (labels (synth_dataset ds)) ∧
  binary (labels (real_dataset ds)) ∧
  binary (labels (good_synth_dataset ds)).
Proof.
  destruct synth as [si sl], real as [ri rl], real_final as [fi fl].
  unfold make_datasets. intros Hmk.
  destruct (train_test_split seed_rng random_interval si (binarize sl)
              (20 # 100) 42 w).1 as [[[[a b] c] d]|] eqn:Hs; [|done].
  destruct (train_test_split seed_rng random_interval ri (binarize rl)
              (20 # 100) 42 w).1 as [[[[a' b'] c'] d']|] eqn:Hr; [|done].
  simpl in Hmk.
  destruct (good_synth_images to_float score si (binarize sl)) as [gi|] eqn:Hgi;
    [|done].
  destruct (good_synth_labels to_float score si (binarize sl)) as [gl|] eqn:Hgl;
    [|done].
  simpl in Hmk. injection Hmk as <-. simpl.
  apply train_test_split_inv in Hs as (_ & tr & te & _ & _ & _ & H3 & H4 & _).
  apply train_test_split_inv in Hr as (_ & tr' & te' & _ & _ & _ & H3' & H4' & _).
  pose proof (binarize_binary sl) as Bs. pose proof (binarize_binary rl) as Br.
  repeat split; try done;
    try (eapply take_rows_Forall; [|eassumption]; done).
  rewrite all_labels_eq. apply Forall_app. split.
  - apply Forall_replicate. by left.
  - apply Forall_replicate. by right.
Qed.


Lemma make_datasets_real_final
    (synth real real_final : list (list (list pixel)) * list Z) (w : process)
    (ds : datasets) :
  make_datasets to_float seed_rng random_interval score synth real real_final w
    = Some ds →
  real_final_dataset ds = mri_dataset to_float real_final.1 (binarize real.2) ∧
  length (binarize real.2) = length real.1.
Proof.
  destruct synth as [si sl], real as [ri rl], real_final as [fi fl].
  unfold make_datasets. intros Hmk.
  destruct (train_test_split seed_rng random_interval si (binarize sl)
              (20 # 100) 42 w).1 as [[[[a b] c] d]|] eqn:Hs; [|done].
  destruct (train_test_split seed_rng random_interval ri (binarize rl)
              (20 # 100) 42 w).1 as [[[[a' b'] c'] d']|] eqn:Hr; [|done].
  simpl in Hmk.
  destruct (good_synth_images to_float score si (binarize sl)) as [gi|]; [|done].
  destruct (good_synth_labels to_float score si (binarize sl)) as [gl|]; [|done].
  simpl in Hmk. injection Hmk as <-. simpl.
  apply train_test_split_inv in Hr as (Hlen & _). done.
Qed.

Section Evaluation.
Variable model : list (list (list value)) → list Q.
Variable criterion : list (list Q) → list Z → Q.

(** The final evaluation over [real_final_loader] scores the predictions
    for the hold-out images against the labels of the real training set at
    the same positions; the labels of the hold-out set play no part.  With
    more hold-out images than training labels the pass stops with an
    [IndexError]. *)
Theorem final_evaluation_labels
    (synth real real_final : list (list (list pixel)) * list Z) (w : process)
    (ds : datasets) :
  make_datasets to_float seed_rng random_interval score synth real real_final w
    = Some ds →
  ((length real_final.1 ≤ length real.1)%nat →
   ∃ batches,
     DataLoader (real_final_dataset ds) 1 = Ok batches ∧
     pairs (validate_epoch model criterion batches)
     = zip_with (λ img lbl, (lbl, predict model (Transform.transform to_float img)))
         real_final.1 (binarize real.2)) ∧
  ((length real.1 < length real_final.1)%nat →
   DataLoader (real_final_dataset ds) 1 = IndexError).
Proof.
  intros Hmk.
  apply make_datasets_real_final in Hmk as [-> Hlen].
  split.
  - intros Hle.
    destruct (DataLoader_samples
                (mri_dataset to_float real_final.1 (binarize real.2)) 1)
      as (batches & Hload & Hcat); [simpl; lia|].
    exists batches. split; [done|].
    unfold validate_epoch. rewrite validate_batches_pairs. simpl.
    rewrite Hcat. unfold samples. simpl.
    by rewrite fmap_zip_with_both.
  - intros Hlt. apply DataLoader_IndexError. simpl. lia.
Qed.

End Evaluation.

End Datasets.

(** A model on transformed images for the small run: class 1 when the
    first entry exceeds one half. *)
Definition toy_net (t : list (list (list Q))) : list Q := [1 # 2; toy_score t]%Q.

Definition toy_loss (outputs : list (list Q)) (targets : list Z) : Q := 0%Q.

(** In the small run the hold-out image, whose own label is 1, is scored
    against label 0, the label of the first real training sample. *)
Example toy_final_evaluation :
  ∃ ds,
    make_datasets byte_to_float lcg_seed lcg_interval toy_score
      toy_synth toy_real toy_real_final lcg_process = Some ds ∧
    binarize toy_real_final.2 = [1] ∧
    (λ batches, pairs (validate_epoch toy_net toy_loss batches))
      <$> match DataLoader (real_final_dataset ds) 1 with
          | Ok batches => Some batches
          | IndexError => None
          end
    = Some [(0, 1)].
Proof. eexists. split; [reflexivity|]. split; reflexivity. Qed.

Lemma datasets_labels_binary_witness :
  ∃ ds,
    make_datasets byte_to_float lcg_seed lcg_interval toy_score
      toy_synth toy_real toy_real_final lcg_process = Some ds ∧
    binary (labels (synth_train_dataset ds)) ∧
    binary (labels (synth_test_dataset ds)) ∧
    binary (labels (real_train_dataset ds)) ∧
    binary (labels (real_test_dataset ds)) ∧
    binary (labels (real_final_dataset ds)) ∧
    binary (labels (adv_val_dataset ds)) ∧
    binary (labels (synth_dataset ds)) ∧
    binary (labels (real_dataset ds)) ∧
    binary (labels (good_synth_dataset ds)).
Proof.
  eexists. split; [reflexivity|].
  apply (datasets_labels_binary byte_to_float lcg_seed lcg_interval toy_score
           toy_synth toy_real toy_real_final lcg_process).
  reflexivity.
Defined.

Lemma final_evaluation_labels_witness :
  ∃ ds batches,
    make_datasets byte_to_float lcg_seed lcg_interval toy_score
      toy_synth toy_real toy_real_final lcg_process = Some ds ∧
    DataLoader (real_final_dataset ds) 1 = Ok batches ∧
    pairs (validate_epoch toy_net toy_loss batches)
    = zip_with (λ img lbl,
                  (lbl, predict toy_net (Transform.transform byte_to_float img)))
        toy_real_final.1 (binarize toy_real.2).
Proof.
  eexists.
  destruct (proj1 (final_evaluation_labels byte_to_float lcg_seed lcg_interval
                     toy_score toy_net toy_loss
                     toy_synth toy_real toy_real_final lcg_process _ eq_refl))
    as (batches & Hload & Hpairs); [vm_compute; lia|].
  exists batches. split; [reflexivity|]. split; [exact Hload|exact Hpairs].
Defined.

End Pipeline.
